(** * xcode-build.js: a supervising wrapper around [xcodebuild]

    A shallow embedding of [src/xcode-build.js] (the current version of the
    script, lines 1-301) and the properties of its argument handling,
    descriptor discovery, device validation, timeout, teardown and exit
    codes.

    Conventions of the embedding.
    - A JavaScript string is modelled by the bytes of its UTF-8 encoding
      ([string] of the standard library).  Substring search, suffix tests and
      searches for ASCII markers agree with their UTF-16 counterparts on
      well-formed text, because UTF-8 is self-synchronising.
    - [null] / [undefined] are [None].
    - The synchronous part of the script (argument parsing up to [spawn]) is
      a computation in a small monad that records every effect and stops at
      [process.exit] or at an uncaught exception.
    - The event-driven part (timer, signals, child events) is a transition
      function on the mutable variables of the script, driven by a list of
      events delivered by the Node.js event loop.  Time is not measured:
      the order of the events stands for it, and timers armed with the same
      delay fire in the order in which they were armed.
    - The script installs no listener for the ['error'] events of the log
      stream and of the child.  Node.js throws such an event as an uncaught
      exception; [delivery] and [supervise] add these events to the ones
      the script listens to.
    - Not modelled: the older version of the script that follows in the
      same source file (lines 302-506), and the truncation of exit codes to
      eight bits by the operating system. *)

From Stdlib Require Import String Ascii List ZArith Bool Lia.
From Stdlib Require Import Numbers.DecimalString Numbers.DecimalPos.
Import ListNotations.

Local Open Scope list_scope.
Local Open Scope string_scope.

(* ================================================================== *)
(** ** JavaScript string and array primitives used by the script *)
(* ================================================================== *)

Module JS.

(** [s.startsWith(p)] on bytes. *)
Fixpoint startsWith (p s : string) : bool :=
  match p, s with
  | EmptyString, _ => true
  | String a p', String b s' => Ascii.eqb a b && startsWith p' s'
  | String _ _, EmptyString => false
  end.

(** Remainder of [s] after the prefix [p], when [s] starts with [p]. *)
Fixpoint stripPrefix (p s : string) : option string :=
  match p, s with
  | EmptyString, _ => Some s
  | String a p', String b s' =>
      if Ascii.eqb a b then stripPrefix p' s' else None
  | String _ _, EmptyString => None
  end.

(** [hay.includes(needle)]: [needle] occurs somewhere in [hay]. *)
Fixpoint includes (needle hay : string) : bool :=
  startsWith needle hay ||
  match hay with
  | EmptyString => false
  | String _ rest => includes needle rest
  end.

(** [s.endsWith(suffix)]. *)
Fixpoint endsWith (suffix s : string) : bool :=
  String.eqb s suffix ||
  match s with
  | EmptyString => false
  | String _ rest => endsWith suffix rest
  end.

(** Every character of [s] is an ASCII character. *)
Fixpoint isASCII (s : string) : bool :=
  match s with
  | EmptyString => true
  | String c rest => (nat_of_ascii c <? 128)%nat && isASCII rest
  end.

(** [s.toLowerCase()] and [s.toUpperCase()] on ASCII text: the letters A-Z
    (a-z) are mapped.  The bytes of a non-ASCII character are left as they
    are, whereas the functions of the language also map the letters
    outside ASCII; on a string that is not [isASCII] the result stands for
    the real one only in what the script tests of it, namely whether it is
    one of the four operation names: the real lower case of such a string
    is none of them either (the only ASCII letters that are the lower case
    of a non-ASCII character are the k of the Kelvin sign, which is in no
    operation name, and the i of the dotted capital I, which comes with a
    combining dot).  Facts about the text of a lowercased value are stated
    for ASCII values. *)
Definition lowerChar (c : ascii) : ascii :=
  let n := nat_of_ascii c in
  if (65 <=? n)%nat && (n <=? 90)%nat then ascii_of_nat (n + 32) else c.

Definition upperChar (c : ascii) : ascii :=
  let n := nat_of_ascii c in
  if (97 <=? n)%nat && (n <=? 122)%nat then ascii_of_nat (n - 32) else c.

Fixpoint toLowerCase (s : string) : string :=
  match s with
  | EmptyString => EmptyString
  | String c rest => String (lowerChar c) (toLowerCase rest)
  end.

Fixpoint toUpperCase (s : string) : string :=
  match s with
  | EmptyString => EmptyString
  | String c rest => String (upperChar c) (toUpperCase rest)
  end.

(** [parts.join(' ')]. *)
Fixpoint join (sep : string) (parts : list string) : string :=
  match parts with
  | [] => ""
  | [p] => p
  | p :: rest => p ++ sep ++ join sep rest
  end.

(** [xs.indexOf(x)]: position of the first element equal to [x];
    [None] stands for -1. *)
Fixpoint indexOf (x : string) (xs : list string) : option nat :=
  match xs with
  | [] => None
  | y :: rest =>
      if String.eqb y x then Some 0%nat
      else option_map S (indexOf x rest)
  end.

(** [xs.includes(x)] on arrays. *)
Definition arrayIncludes (x : string) (xs : list string) : bool :=
  existsb (String.eqb x) xs.

(** [xs.find(pred)]: the first element satisfying [pred]. *)
Definition find (pred : string -> bool) (xs : list string) : option string :=
  List.find pred xs.

(** Truthiness of a string value: every string but the empty one. *)
Definition truthy (s : string) : bool := negb (String.eqb s "").

(** *** Numbers

    The script only handles numbers produced by [Number.parseInt] on
    decimal digits.  A number is not-a-number, an infinity, or a double
    whose value is an integer. *)
Inductive number : Type :=
| NaN
| Infinity (negative : bool)
| Fin (z : Z).

(** [Number.MAX_SAFE_INTEGER]: up to this magnitude every integer is a
    double. *)
Definition MAX_SAFE_INTEGER : Z := (2 ^ 53 - 1)%Z.

(** The double nearest to an integer, ties going to the double with an
    even significand.  An integer [a] of more than 53 bits is [q * 2^e + r]
    with a significand [q] of 53 bits; it is rounded down to [q * 2^e] or
    up to [(q + 1) * 2^e]. *)
Definition roundToDouble (z : Z) : Z :=
  let a := Z.abs z in
  if (a <=? MAX_SAFE_INTEGER)%Z then z
  else
    let e := (Z.log2 a - 52)%Z in
    let q := Z.shiftr a e in
    let r := (a - Z.shiftl q e)%Z in
    let half := Z.shiftl 1 (e - 1) in
    let q' := if (r <? half)%Z then q
              else if (half <? r)%Z then (q + 1)%Z
              else if Z.even q then q else (q + 1)%Z in
    (Z.sgn z * Z.shiftl q' e)%Z.

(** Integers at or above this bound round to an infinity: it lies half
    way between the largest double and 2^1024. *)
Definition overflow_threshold : Z := (2 ^ 1024 - 2 ^ 970)%Z.

(** The Number value for a mathematical integer. *)
Definition toNumber (mathInt : Z) : number :=
  if (overflow_threshold <=? mathInt)%Z then Infinity false
  else if (mathInt <=? - overflow_threshold)%Z then Infinity true
  else Fin (roundToDouble mathInt).

(** [Number.isFinite(x)]. *)
Definition isFinite (x : number) : bool :=
  match x with Fin _ => true | _ => false end.

(** [x <= 0] (false when [x] is NaN). *)
Definition leZero (x : number) : bool :=
  match x with
  | NaN => false
  | Infinity negative => negative
  | Fin z => (z <=? 0)%Z
  end.

(** [String(n)] for an integer of magnitude up to [MAX_SAFE_INTEGER],
    where it is the decimal numeral.  (For larger numbers the function of
    the language prints the shortest numeral that reads back as the same
    double, in exponent notation from 10^21 on; the script applies it to
    300 and 600 only, line 42.) *)
Definition String_ (z : Z) : string := NilZero.string_of_int (Z.to_int z).

Definition bytes (codes : list nat) : string :=
  string_of_list_ascii (map ascii_of_nat codes).

(** Number of bytes of the UTF-8 character that begins with [lead]. *)
Definition utf8Length (lead : ascii) : nat :=
  let n := nat_of_ascii lead in
  if (n <? 192)%nat then 1
  else if (n <? 224)%nat then 2
  else if (n <? 240)%nat then 3
  else 4.

(** The first [k] bytes of [s], and what follows them. *)
Fixpoint takeBytes (k : nat) (s : string) : string * string :=
  match k, s with
  | S k', String c rest => let '(a, b) := takeBytes k' rest in (String c a, b)
  | _, _ => ("", s)
  end.

(** [s.substring(0, n)]: the first [n] UTF-16 code units of [s].  A
    character of one, two or three bytes in UTF-8 is one unit, a character
    of four bytes is two (a surrogate pair).  When the cut falls between
    the two units of a pair, the unpaired surrogate that is left is
    written out as U+FFFD, which is how [console.log] encodes it.  Each
    character takes at least one unit, so [n] rounds are enough. *)
Fixpoint substringUnits (fuel n : nat) (s : string) : string :=
  match fuel, n, s with
  | S fuel', S n', String c _ =>
      let len := utf8Length c in
      let '(char, rest) := takeBytes len s in
      if (len =? 4)%nat then
        match n' with
        | O => bytes [239; 191; 189]
        | S n'' => char ++ substringUnits fuel' n'' rest
        end
      else char ++ substringUnits fuel' n' rest
  | _, _, _ => ""
  end.

Definition substring0 (n : nat) (s : string) : string := substringUnits n n s.

(** The white space and line terminator characters that [parseInt] skips,
    as UTF-8: TAB, LF, VT, FF, CR, SP, U+00A0, U+1680, U+2000..U+200A,
    U+2028, U+2029, U+202F, U+205F, U+3000, U+FEFF. *)
Definition StrWhiteSpaceChar : list string :=
  [ bytes [9]; bytes [10]; bytes [11]; bytes [12]; bytes [13]; bytes [32];
    bytes [194; 160]; bytes [225; 154; 128];
    bytes [226; 128; 128]; bytes [226; 128; 129]; bytes [226; 128; 130];
    bytes [226; 128; 131]; bytes [226; 128; 132]; bytes [226; 128; 133];
    bytes [226; 128; 134]; bytes [226; 128; 135]; bytes [226; 128; 136];
    bytes [226; 128; 137]; bytes [226; 128; 138];
    bytes [226; 128; 168]; bytes [226; 128; 169]; bytes [226; 128; 175];
    bytes [226; 129; 159]; bytes [227; 128; 128]; bytes [239; 187; 191] ].

(** The line terminators, which [.] of a regular expression does not match:
    LF, CR, U+2028, U+2029. *)
Definition LineTerminator : list string :=
  [ bytes [10]; bytes [13]; bytes [226; 128; 168]; bytes [226; 128; 169] ].

Fixpoint stripAny (table : list string) (s : string) : option string :=
  match table with
  | [] => None
  | p :: rest =>
      match stripPrefix p s with
      | Some r => Some r
      | None => stripAny rest s
      end
  end.

Fixpoint trimStartFuel (fuel : nat) (s : string) : string :=
  match fuel with
  | O => s
  | S fuel' =>
      match stripAny StrWhiteSpaceChar s with
      | Some r => trimStartFuel fuel' r
      | None => s
      end
  end.

(** Leading white space removed.  Each stripped character is at least one
    byte, so [length s] rounds are enough. *)
Definition trimStart (s : string) : string := trimStartFuel (String.length s) s.

Definition isDigit (c : ascii) : bool :=
  let n := nat_of_ascii c in (48 <=? n)%nat && (n <=? 57)%nat.

Definition digitValue (c : ascii) : Z := Z.of_nat (nat_of_ascii c - 48).

(** Value of the longest prefix of decimal digits, with the number of digits
    read; [acc] is the value of the digits read so far. *)
Fixpoint readDigits (acc : Z) (count : nat) (s : string) : Z * nat :=
  match s with
  | String c rest =>
      if isDigit c then readDigits (acc * 10 + digitValue c) (S count) rest
      else (acc, count)
  | EmptyString => (acc, count)
  end.

(** [Number.parseInt(s, 10)]: skip white space, read an optional sign, then
    the longest run of decimal digits; whatever follows is ignored.  NaN
    when there is no digit; otherwise the double nearest to the integer
    that the digits denote (the language lets an implementation
    approximate a numeral of more than 20 significant digits; V8, the
    engine of Node.js, rounds correctly). *)
Definition parseInt (s : string) : number :=
  let S0 := trimStart s in
  let '(sign, S1) :=
    match S0 with
    | String "-" rest => ((-1)%Z, rest)
    | String "+" rest => (1%Z, rest)
    | _ => (1%Z, S0)
    end in
  let '(mathInt, count) := readDigits 0 0 S1 in
  match count with
  | O => NaN
  | S _ => toNumber (sign * mathInt)
  end.

End JS.

(* ================================================================== *)
(** ** Effects, console messages and the script monad *)
(* ================================================================== *)

Inductive stream : Type := stdout | stderr.

(** One constructor per [console.log] / [console.error] / [write] template
    of the script, carrying the interpolated values. *)
Inductive message : Type :=
| Usage                                   (* printUsage, lines 44-67 *)
| MissingRequired                         (* line 75 *)
| InvalidCommand (cmd : string)           (* line 81 *)
| InvalidTimeout (arg : option string)    (* line 87 *)
| ArchivePathRequired                     (* line 93 *)
| NoDescriptor (dir : string)             (* line 108 *)
| BannerTitle                             (* line 118 *)
| Rule                                    (* lines 119, 254, 256, ... *)
| BannerProject (dir : string)            (* line 120 *)
| BannerScheme (name : string)            (* line 121 *)
| BannerCommand (cmd : string)            (* line 122 *)
| BannerDevice (name : string)            (* line 124 *)
| BannerArchive (path : option string)    (* line 127 *)
| BannerTimeout (t : JS.number)           (* line 129 *)
| BannerLog (path : string)               (* line 130 *)
| Blank                                   (* lines 131, 175 *)
| DeviceNotFound (name : string)          (* line 139 *)
| AvailableDevices                        (* line 140 *)
| Raw (text : string)                     (* line 141: the text itself *)
| DeviceFound (name : string)             (* line 144 *)
| FailedToListDevices (err : string)      (* line 146 *)
| Starting (cmd : string)                 (* line 173 *)
| CommandPreview (prefix : string)        (* line 174 *)
| Progress (verb : string) (elapsed : Z)  (* line 205 *)
| ClearProgress                           (* line 249 *)
| TimedOutReport (label : string) (t : JS.number)        (* line 255 *)
| SuccessReport (label : string) (elapsed : Z)           (* line 261 *)
| FailedReport (label : string) (code : option Z)        (* line 267 *)
| ErrorLine (text : string)               (* line 275 *)
| DeviceTip                               (* line 280 *)
| DeviceTipCommand                        (* line 281 *)
| FullLog (path : string)                 (* lines 257, 263, 287 *)
| Cancelled (label : string)              (* line 294 *)
| Terminated (label : string).            (* line 299 *)

Inductive effect : Type :=
| Print (to : stream) (m : message)
| ReaddirSync (dir : string)
| ExecSync (cmd : string)
| CreateWriteStream (path : string)
| Spawn (file : string) (argv : list string) (cwd : string)
| ClearTimeout
| ClearInterval
| KillGroup (delivered : bool)    (* process.kill(-build.pid, 'SIGKILL') *)
| KillChild                       (* build.kill('SIGKILL') *)
| LogWrite (data : string)         (* logStream.write(data): data goes to the log *)
| LogWriteAfterEnd (data : string) (* logStream.write(data) after end(): refused *)
| LogEnd
| SetExitTimer (code : option Z)  (* setTimeout(() => process.exit(code), 100) *)
| ProcessExit (code : option Z).

(** What the operating system answers to the script. *)
Record World : Type := {
  (** [fs.readdirSync(dir)]; [None] when it throws. *)
  readdirSync : string -> option (list string);
  (** [execSync('xcrun simctl list devices available')]: the output, or the
      message of the error it throws. *)
  simctl : string + string;
  (** [path.resolve(from, to)]. *)
  path_resolve : string -> string -> string
}.

(** How a synchronous run ends: it goes on with a value, it calls
    [process.exit], or an exception reaches the top level. *)
Inductive result (A : Type) : Type :=
| Done (a : A)
| Exit (code : Z)
| Uncaught.
Arguments Done {A} a.
Arguments Exit {A} code.
Arguments Uncaught {A}.

Definition M (A : Type) : Type := list effect * result A.

Definition ret {A} (a : A) : M A := ([], Done a).

Definition bind {A B} (m : M A) (k : A -> M B) : M B :=
  match m with
  | (t, Done a) => let '(t', r) := k a in ((t ++ t')%list, r)
  | (t, Exit c) => (t, Exit c)
  | (t, Uncaught) => (t, Uncaught)
  end.

Declare Scope script_scope.
Delimit Scope script_scope with script.
Notation "x <- m ;; k" := (bind m (fun x => k))
  (at level 61, m at next level, right associativity) : script_scope.
Notation "m ;; k" := (bind m (fun _ => k))
  (at level 61, right associativity) : script_scope.
Local Open Scope script_scope.

Definition perform (e : effect) : M unit := ([e], Done tt).
Definition log (m : message) : M unit := perform (Print stdout m).
Definition error (m : message) : M unit := perform (Print stderr m).
Definition exit {A} (code : Z) : M A := ([], Exit code).
Definition throw {A} : M A := ([], Uncaught).
Definition when (b : bool) (m : M unit) : M unit := if b then m else ret tt.

Definition trace {A} (m : M A) : list effect := fst m.
Definition outcome {A} (m : M A) : result A := snd m.

Definition isSpawn (e : effect) : bool :=
  match e with Spawn _ _ _ => true | _ => false end.
Definition isReaddir (e : effect) : bool :=
  match e with ReaddirSync _ => true | _ => false end.
Definition isExecSync (e : effect) : bool :=
  match e with ExecSync _ => true | _ => false end.

(** A child process was started. *)
Definition spawned (t : list effect) : bool := existsb isSpawn t.
(** The target directory was read. *)
Definition readDirectory (t : list effect) : bool := existsb isReaddir t.
(** The device enumeration tool was invoked. *)
Definition enumerated (t : list effect) : bool := existsb isExecSync t.

(** The double quote character. *)
Definition dq : string := String (ascii_of_nat 34) "".
Definition quoted (s : string) : string := dq ++ s ++ dq.

(* ================================================================== *)
(** ** The synchronous part: lines 19-185 *)
(* ================================================================== *)

(** The resolved options handed to the supervision part. *)
Record RunRequest : Type := {
  rr_projectPath : string;
  rr_scheme : string;
  rr_command : string;
  rr_deviceName : string;
  rr_timeout : JS.number;
  rr_logFile : string;
  rr_archivePath : option string;
  rr_quiet : bool;
  rr_buildTarget : string;
  rr_commandVerb : string;
  rr_buildCmd : string
}.

Section Arguments.

(** [process.argv.slice(2)] *)
Variable args : list string.

(** Lines 21-24. *)
Definition getArg (flag : string) : option string :=
  match JS.indexOf flag args with
  | Some index =>
      match nth_error args (index + 1) with
      | Some v => if JS.truthy v then Some v else None
      | None => None
      end
  | None => None
  end.

(** [a || b] on an optional string and a default. *)
Definition orElse (a : option string) (b : string) : string :=
  match a with
  | Some v => if JS.truthy v then v else b
  | None => b
  end.

(** Line 26. *)
Definition wantsHelp : bool :=
  JS.arrayIncludes "--help" args || JS.arrayIncludes "-h" args.

(** Lines 28-30. *)
Definition ALLOWED_COMMANDS : list string := ["build"; "test"; "archive"; "clean"].
Definition command : string := JS.toLowerCase (orElse (getArg "--command") "build").
Definition usesSimulatorDestination (cmd : string) : bool :=
  String.eqb cmd "build" || String.eqb cmd "test".

(** Lines 32-38. *)
Definition projectPath : option string := getArg "--project".
Definition scheme : option string := getArg "--scheme".
Definition deviceName : string := orElse (getArg "--device") "iPhone 16 Pro".
Definition logFile : string := orElse (getArg "--log") "/tmp/xcode-build.log".
Definition quiet : bool := JS.arrayIncludes "--quiet" args.
Definition archivePathArg : option string := getArg "--archive-path".

(** Lines 40-42. *)
Definition defaultTimeout : Z := if String.eqb command "test" then 600%Z else 300%Z.
Definition timeoutArg : option string := getArg "--timeout".
Definition timeout : JS.number :=
  JS.parseInt
    (match timeoutArg with
     | Some v => v
     | None => JS.String_ defaultTimeout
     end).

(** Lines 44-67. *)
Definition printUsage (to : stream) : M unit := perform (Print to Usage).

(** Lines 151-155. *)
Definition commandVerb : string :=
  if String.eqb command "test" then "Testing"
  else if String.eqb command "archive" then "Archiving"
  else if String.eqb command "clean" then "Cleaning"
  else "Building".

End Arguments.

Section Script.

Variable args : list string.
Variable os : World.

(** Lines 98-110: descriptor discovery in the target directory.  The
    directory is read twice; the first entry ending in [.xcworkspace] is
    preferred to the first entry ending in [.xcodeproj]. *)
Definition readdir (dir : string) : M (list string) :=
  perform (ReaddirSync dir) ;;
  match readdirSync os dir with
  | Some entries => ret entries
  | None => throw
  end.

Definition discover (dir : string) : M string :=
  entries1 <- readdir dir ;;
  let workspaceFile := JS.find (JS.endsWith ".xcworkspace") entries1 in
  entries2 <- readdir dir ;;
  let projectFile := JS.find (JS.endsWith ".xcodeproj") entries2 in
  match workspaceFile, projectFile with
  | Some f, _ => ret ("-workspace " ++ quoted f)
  | None, Some f => ret ("-project " ++ quoted f)
  | None, None => error (NoDescriptor dir) ;; exit 1
  end.

(** Lines 134-149: device validation. *)
Definition verifyDevice (cmd name : string) (quiet_ : bool) : M unit :=
  when (usesSimulatorDestination cmd)
    (perform (ExecSync "xcrun simctl list devices available") ;;
     match simctl os with
     | inr devices =>
         when (negb (JS.includes name devices))
           (error (DeviceNotFound name) ;;
            error AvailableDevices ;;
            error (Raw devices) ;;
            exit 1) ;;
         when (negb quiet_) (log (DeviceFound name))
     | inl err =>
         error (FailedToListDevices err) ;;
         exit 1
     end).

(** Lines 157-170. *)
Definition buildCmdParts (cmd buildTarget scheme_ name : string)
    (archivePath : option string) : list string :=
  (["xcodebuild"; buildTarget; ("-scheme " ++ quoted scheme_)%string]
   ++ (if usesSimulatorDestination cmd
       then [("-destination " ++ quoted ("platform=iOS Simulator,name=" ++ name))%string]
       else [])
   ++ ["-skipMacroValidation"]
   ++ (if String.eqb cmd "archive"
       then [("-archivePath " ++ quoted (match archivePath with
                                         | Some p => p
                                         | None => "null"
                                         end))%string;
             "archive"]
       else [cmd]))%list.

(** Lines 69-185: the script up to and including [spawn]. *)
Definition main : M RunRequest :=
  let command := command args in
  let timeout := timeout args in
  let quiet := quiet args in
  let deviceName := deviceName args in
  let logFile := logFile args in
  (* 69-72 *)
  when (wantsHelp args) (printUsage stdout ;; exit 0) ;;
  (* 74-78 *)
  match projectPath args, scheme args with
  | Some projectPath, Some scheme =>
      (* 80-84 *)
      when (negb (JS.arrayIncludes command ALLOWED_COMMANDS))
        (error (InvalidCommand command) ;; printUsage stderr ;; exit 1) ;;
      (* 86-90 *)
      when (negb (JS.isFinite timeout) || JS.leZero timeout)
        (error (InvalidTimeout (timeoutArg args)) ;; printUsage stderr ;; exit 1) ;;
      (* 92-96 *)
      when (String.eqb command "archive" &&
            match archivePathArg args with Some _ => false | None => true end)
        (error ArchivePathRequired ;; printUsage stderr ;; exit 1) ;;
      (* 98-110 *)
      buildTarget <- discover projectPath ;;
      (* 112-115 *)
      let archivePath :=
        if String.eqb command "archive"
        then option_map (path_resolve os projectPath) (archivePathArg args)
        else None in
      (* 117-132 *)
      when (negb quiet)
        (log BannerTitle ;; log Rule ;;
         log (BannerProject projectPath) ;;
         log (BannerScheme scheme) ;;
         log (BannerCommand command) ;;
         when (usesSimulatorDestination command) (log (BannerDevice deviceName)) ;;
         when (String.eqb command "archive") (log (BannerArchive archivePath)) ;;
         log (BannerTimeout timeout) ;;
         log (BannerLog logFile) ;;
         log Blank) ;;
      (* 134-149 *)
      verifyDevice command deviceName quiet ;;
      (* 151-170 *)
      let buildCmd :=
        JS.join " " (buildCmdParts command buildTarget scheme deviceName archivePath) in
      (* 172-176 *)
      when (negb quiet)
        (log (Starting command) ;;
         log (CommandPreview (JS.substring0 80 buildCmd)) ;;
         log Blank) ;;
      (* 179-185 *)
      perform (CreateWriteStream logFile) ;;
      perform (Spawn "sh" ["-c"; buildCmd] projectPath) ;;
      ret {| rr_projectPath := projectPath;
             rr_scheme := scheme;
             rr_command := command;
             rr_deviceName := deviceName;
             rr_timeout := timeout;
             rr_logFile := logFile;
             rr_archivePath := archivePath;
             rr_quiet := quiet;
             rr_buildTarget := buildTarget;
             rr_commandVerb := commandVerb args;
             rr_buildCmd := buildCmd |}
  | _, _ =>
      error MissingRequired ;; printUsage stderr ;; exit 1
  end.

End Script.

(** A directory with a project, the default simulator available. *)
Definition sampleWorld (entries : list string) (devices : string + string) : World :=
  {| readdirSync := fun _ => Some entries;
     simctl := devices;
     path_resolve := fun from to => from ++ "/" ++ to |}.

(* ================================================================== *)
(** ** The event-driven part: lines 187-301 *)
(* ================================================================== *)

(** Line 273: [logContent.match(/error:.*$/m)].  The match starts at the
    first occurrence of [error:]; [.*] is greedy and stops at the first line
    terminator or at the end of the text, where [$] holds in multiline
    mode, so the first attempt at that position succeeds. *)
Fixpoint dotStar (s : string) : string :=
  match JS.stripAny JS.LineTerminator s with
  | Some _ => ""
  | None =>
      match s with
      | EmptyString => ""
      | String c rest => String c (dotStar rest)
      end
  end.

Fixpoint errorMatch (logContent : string) : option string :=
  match JS.stripPrefix "error:" logContent with
  | Some rest => Some ("error:" ++ dotStar rest)
  | None =>
      match logContent with
      | EmptyString => None
      | String _ rest => errorMatch rest
      end
  end.

(** The mutable variables of the script after [spawn], the timers it has
    pending, the state of the log stream, and the effects performed so far.
    [groupAlive] belongs to the operating system: whether a signal can
    still be delivered to the child's process group.  Only the operating
    system changes it (event [GroupGone]): a group that has been sent
    SIGKILL is still there until its processes have died and been reaped,
    so a second kill may be delivered as well. *)
Record SupervisedRun : Type := {
  timedOut : bool;                  (* line 187 *)
  lastOutput : Z;                   (* line 188 *)
  timeoutHandle : bool;             (* line 191: timer still pending *)
  progressInterval : option bool;   (* line 203: null when quiet; active? *)
  pid : option Z;                   (* build.pid *)
  groupAlive : bool;
  exitTimers : list (option Z);     (* line 241: pending, oldest first *)
  logEnded : bool;                  (* logStream.end() has been called *)
  effects : list effect
}.

Definition set_timedOut (b : bool) (s : SupervisedRun) : SupervisedRun :=
  {| timedOut := b; lastOutput := lastOutput s; timeoutHandle := timeoutHandle s;
     progressInterval := progressInterval s; pid := pid s;
     groupAlive := groupAlive s; exitTimers := exitTimers s;
     logEnded := logEnded s; effects := effects s |}.
Definition set_lastOutput (t : Z) (s : SupervisedRun) : SupervisedRun :=
  {| timedOut := timedOut s; lastOutput := t; timeoutHandle := timeoutHandle s;
     progressInterval := progressInterval s; pid := pid s;
     groupAlive := groupAlive s; exitTimers := exitTimers s;
     logEnded := logEnded s; effects := effects s |}.
Definition set_timeoutHandle (b : bool) (s : SupervisedRun) : SupervisedRun :=
  {| timedOut := timedOut s; lastOutput := lastOutput s; timeoutHandle := b;
     progressInterval := progressInterval s; pid := pid s;
     groupAlive := groupAlive s; exitTimers := exitTimers s;
     logEnded := logEnded s; effects := effects s |}.
Definition set_progressInterval (p : option bool) (s : SupervisedRun) : SupervisedRun :=
  {| timedOut := timedOut s; lastOutput := lastOutput s; timeoutHandle := timeoutHandle s;
     progressInterval := p; pid := pid s;
     groupAlive := groupAlive s; exitTimers := exitTimers s;
     logEnded := logEnded s; effects := effects s |}.
Definition set_groupAlive (b : bool) (s : SupervisedRun) : SupervisedRun :=
  {| timedOut := timedOut s; lastOutput := lastOutput s; timeoutHandle := timeoutHandle s;
     progressInterval := progressInterval s; pid := pid s;
     groupAlive := b; exitTimers := exitTimers s;
     logEnded := logEnded s; effects := effects s |}.
Definition set_exitTimers (q : list (option Z)) (s : SupervisedRun) : SupervisedRun :=
  {| timedOut := timedOut s; lastOutput := lastOutput s; timeoutHandle := timeoutHandle s;
     progressInterval := progressInterval s; pid := pid s;
     groupAlive := groupAlive s; exitTimers := q;
     logEnded := logEnded s; effects := effects s |}.
Definition set_logEnded (b : bool) (s : SupervisedRun) : SupervisedRun :=
  {| timedOut := timedOut s; lastOutput := lastOutput s; timeoutHandle := timeoutHandle s;
     progressInterval := progressInterval s; pid := pid s;
     groupAlive := groupAlive s; exitTimers := exitTimers s;
     logEnded := b; effects := effects s |}.
Definition set_effects (t : list effect) (s : SupervisedRun) : SupervisedRun :=
  {| timedOut := timedOut s; lastOutput := lastOutput s; timeoutHandle := timeoutHandle s;
     progressInterval := progressInterval s; pid := pid s;
     groupAlive := groupAlive s; exitTimers := exitTimers s;
     logEnded := logEnded s; effects := t |}.

(** A handler either completes or throws; it always leaves a state. *)
Inductive completion (A : Type) : Type :=
| Normal (a : A)
| Thrown (err : string).
Arguments Normal {A} a.
Arguments Thrown {A} err.

Definition H (A : Type) : Type := SupervisedRun -> completion A * SupervisedRun.

Definition hret {A} (a : A) : H A := fun s => (Normal a, s).
Definition hbind {A B} (m : H A) (k : A -> H B) : H B :=
  fun s =>
    match m s with
    | (Normal a, s') => k a s'
    | (Thrown err, s') => (Thrown err, s')
    end.
Definition hthrow {A} (err : string) : H A := fun s => (Thrown err, s).
(** [try { body } catch (err) { handler }] *)
Definition tryCatch (body : H unit) (handler : string -> H unit) : H unit :=
  fun s =>
    match body s with
    | (Normal a, s') => (Normal a, s')
    | (Thrown err, s') => handler err s'
    end.
Definition get {A} (field : SupervisedRun -> A) : H A := fun s => (Normal (field s), s).
Definition modify (f : SupervisedRun -> SupervisedRun) : H unit :=
  fun s => (Normal tt, f s).
Definition emit (e : effect) : H unit :=
  modify (fun s => set_effects (effects s ++ [e])%list s).
Definition hwhen (b : bool) (m : H unit) : H unit := if b then m else hret tt.

Declare Scope handler_scope.
Delimit Scope handler_scope with handler.
Notation "x <- m ;; k" := (hbind m (fun x => k))
  (at level 61, m at next level, right associativity) : handler_scope.
Notation "m ;; k" := (hbind m (fun _ => k))
  (at level 61, right associativity) : handler_scope.

(** The events the script has a callback or a listener for. *)
Inductive event : Type :=
| TimeoutFires                          (* the timer armed at line 191 *)
| ProgressTick (now : Z)                (* the interval of line 203 *)
| StdoutData (data : string) (now : Z)  (* line 209 *)
| StderrData (data : string) (now : Z)  (* line 214 *)
| Close (code : option Z) (now : Z) (logContent : option string)
                                        (* line 247; [logContent] is what
                                           [readFileSync] would return,
                                           [None] when it throws *)
| SIGINT                                (* line 293 *)
| SIGTERM                               (* line 298 *)
| ExitTimerFires                        (* the oldest timer of line 241 *)
| GroupGone.                            (* the child's group has vanished *)

(** The two objects of the script that can emit an ['error'] event. *)
Inductive emitter : Type :=
| logStream   (* the log cannot be opened or written, or a write came
                 after [end()] *)
| build.      (* the child could not be spawned *)

(** What the event loop hands to the wrapper: an event the script listens
    to, or an ['error'] event of [logStream] or of [build].  The script
    installs no listener for those (there is no [on('error', ...)] in it),
    and Node.js throws an ['error'] event that has no listener: the wrapper
    dies of an uncaught exception on the spot, and none of its handlers
    runs any more. *)
Inductive delivery : Type :=
| Listened (e : event)
| ErrorEvent (from : emitter) (err : string).

Section Supervision.

Variable rr : RunRequest.
Variable startTime : Z.

Local Open Scope handler_scope.

(** [if (build.pid)] *)
Definition hasPid (s : SupervisedRun) : bool :=
  match pid s with
  | Some p => negb (p =? 0)%Z
  | None => false
  end.

(** [process.kill(-build.pid, 'SIGKILL')]: the signal is sent when the
    group exists, and the call throws when it is gone. *)
Definition processKillGroup : H unit :=
  alive <- get groupAlive ;;
  if alive then emit (KillGroup true)
  else emit (KillGroup false) ;; hthrow "ESRCH".

(** Lines 191-200. *)
Definition onTimeout : H unit :=
  modify (set_timedOut true) ;;
  tryCatch
    (p <- get hasPid ;; hwhen p processKillGroup)
    (fun _ => emit KillChild).

(** Lines 203-206. *)
Definition onProgress (now : Z) : H unit :=
  let elapsed := ((now - startTime) / 1000)%Z in
  emit (Print stdout (Progress (rr_commandVerb rr) elapsed)).

(** [logStream.write(data)]: once [end()] has been called the stream takes
    no more data.  The call itself does not throw; the refusal is
    reported, if at all, by an ['error'] event of the stream (see
    [delivery]). *)
Definition logStreamWrite (data : string) : H unit :=
  ended <- get logEnded ;;
  if ended then emit (LogWriteAfterEnd data) else emit (LogWrite data).

(** Lines 209-217. *)
Definition onData (data : string) (now : Z) : H unit :=
  logStreamWrite data ;;
  modify (set_lastOutput now).

(** Lines 220-244. *)
Definition cleanup (code : option Z) : H unit :=
  emit ClearTimeout ;; modify (set_timeoutHandle false) ;;
  interval <- get progressInterval ;;
  match interval with
  | Some _ => emit ClearInterval ;; modify (set_progressInterval (Some false))
  | None => hret tt
  end ;;
  tryCatch
    (p <- get hasPid ;; hwhen p processKillGroup)
    (fun _ => hret tt) ;;
  tryCatch (emit LogEnd ;; modify (set_logEnded true)) (fun _ => hret tt) ;;
  emit (SetExitTimer code) ;;
  modify (fun s => set_exitTimers (exitTimers s ++ [code])%list s).

(** Lines 247-290. *)
Definition onClose (code : option Z) (now : Z) (logContent : option string) : H unit :=
  let elapsed := ((now - startTime) / 1000)%Z in
  hwhen (negb (rr_quiet rr)) (emit (Print stdout ClearProgress)) ;;
  let commandLabel := JS.toUpperCase (rr_command rr) in
  flag <- get timedOut ;;
  if flag then
    emit (Print stderr Rule) ;;
    emit (Print stderr (TimedOutReport commandLabel (rr_timeout rr))) ;;
    emit (Print stderr Rule) ;;
    emit (Print stderr (FullLog (rr_logFile rr))) ;;
    cleanup (Some 124%Z)
  else
    match code with
    | Some 0%Z =>
        emit (Print stdout Rule) ;;
        emit (Print stdout (SuccessReport commandLabel elapsed)) ;;
        emit (Print stdout Rule) ;;
        emit (Print stdout (FullLog (rr_logFile rr))) ;;
        cleanup (Some 0%Z)
    | _ =>
        emit (Print stderr Rule) ;;
        emit (Print stderr (FailedReport commandLabel code)) ;;
        emit (Print stderr Rule) ;;
        tryCatch
          (match logContent with
           | None => hthrow "ENOENT"
           | Some content =>
               match errorMatch content with
               | Some m => emit (Print stderr (ErrorLine m))
               | None => hret tt
               end ;;
               hwhen (JS.includes "Unable to find a device" content)
                 (emit (Print stderr DeviceTip) ;;
                  emit (Print stderr DeviceTipCommand))
           end)
          (fun _ => hret tt) ;;
        emit (Print stderr (FullLog (rr_logFile rr))) ;;
        cleanup code
    end.

(** Lines 293-296. *)
Definition onSIGINT : H unit :=
  emit (Print stdout (Cancelled (JS.toUpperCase (rr_command rr)))) ;;
  cleanup (Some 130%Z).

(** Lines 298-301. *)
Definition onSIGTERM : H unit :=
  emit (Print stdout (Terminated (JS.toUpperCase (rr_command rr)))) ;;
  cleanup (Some 143%Z).

(** The state right after line 206. *)
Definition spawnState (childPid : option Z) (now : Z) : SupervisedRun :=
  {| timedOut := false;
     lastOutput := now;
     timeoutHandle := true;
     progressInterval := if rr_quiet rr then None else Some true;
     pid := childPid;
     groupAlive := true;
     exitTimers := [];
     logEnded := false;
     effects := [] |}.

(** The status [process.exit(code)] gives the process: [code || 0]. *)
Definition exitStatus (code : option Z) : Z :=
  match code with
  | Some c => c
  | None => 0%Z
  end.

(** Where the wrapper process stands. *)
Inductive process : Type :=
| Running (s : SupervisedRun)
| Exited (status : Z) (s : SupervisedRun)
| Crashed (err : string) (s : SupervisedRun).

Definition handle (h : H unit) (s : SupervisedRun) : process :=
  match h s with
  | (Normal _, s') => Running s'
  | (Thrown err, s') => Crashed err s'
  end.

(** One turn of the event loop.  A cleared timer does not fire; an exit
    timer that fires runs [process.exit] with the code it was armed with. *)
Definition step (s : SupervisedRun) (e : event) : process :=
  match e with
  | TimeoutFires =>
      if timeoutHandle s then handle onTimeout (set_timeoutHandle false s)
      else Running s
  | ProgressTick now =>
      match progressInterval s with
      | Some true => handle (onProgress now) s
      | _ => Running s
      end
  | StdoutData data now => handle (onData data now) s
  | StderrData data now => handle (onData data now) s
  | Close code now logContent => handle (onClose code now logContent) s
  | SIGINT => handle onSIGINT s
  | SIGTERM => handle onSIGTERM s
  | ExitTimerFires =>
      match exitTimers s with
      | code :: rest =>
          Exited (exitStatus code)
                 (set_effects (effects s ++ [ProcessExit code])%list
                    (set_exitTimers rest s))
      | [] => Running s
      end
  | GroupGone => Running (set_groupAlive false s)
  end.

(** The events of a run, in the order the event loop delivers them.
    Nothing runs after the process has exited or crashed. *)
Fixpoint run (s : SupervisedRun) (events : list event) : process :=
  match events with
  | [] => Running s
  | e :: rest =>
      match step s e with
      | Running s' => run s' rest
      | ended => ended
      end
  end.

Definition exitCode (p : process) : option Z :=
  match p with
  | Exited status _ => Some status
  | _ => None
  end.

Definition stateOf (p : process) : SupervisedRun :=
  match p with
  | Running s | Exited _ s | Crashed _ s => s
  end.

(** One turn of the event loop, ['error'] events included. *)
Definition deliver (s : SupervisedRun) (d : delivery) : process :=
  match d with
  | Listened e => step s e
  | ErrorEvent _ err => Crashed err s
  end.

(** A run of the wrapper after [spawn].  [run] is the case in which no
    ['error'] event occurs. *)
Fixpoint supervise (s : SupervisedRun) (deliveries : list delivery) : process :=
  match deliveries with
  | [] => Running s
  | d :: rest =>
      match deliver s d with
      | Running s' => supervise s' rest
      | ended => ended
      end
  end.

End Supervision.

(* ================================================================== *)
(** ** Definitions used in the statements, and sample inputs *)
(* ================================================================== *)

(** A world for the examples: project [App.xcodeproj] in the directory and
    the default simulator in the device list. *)
Definition appWorld : World :=
  sampleWorld ["Podfile"; "App.xcodeproj"]
    (inr "-- iOS 18.2 -- iPhone 16 Pro (4C1F) (Shutdown)").

(** The value a script run went on with, if it did. *)
Definition done {A} (m : M A) : option A :=
  match outcome m with
  | Done a => Some a
  | _ => None
  end.

(** A timeout with text after the digits. *)
Definition trailingTextArgs : list string :=
  ["--project"; "/p"; "--scheme"; "App"; "--command"; "clean"; "--quiet";
   "--timeout"; "10abc"].

(** A directory with two project descriptors. *)
Definition twoProjectsWorld : World :=
  sampleWorld ["A.xcodeproj"; "B.xcodeproj"] (inl "not used").

(** A [clean] run, which needs no simulator. *)
Definition cleanArgs : list string :=
  ["--project"; "/p"; "--scheme"; "App"; "--command"; "clean"; "--quiet"].

(** A directory with a project and two workspaces. *)
Definition bothDescriptors : list string :=
  ["App.xcodeproj"; "Pods"; "App.xcworkspace"; "Other.xcworkspace"].

(** The enumeration command of line 137. *)
Definition simctlCommand : string := "xcrun simctl list devices available".

(** A [test] run on a simulator that does not exist. *)
Definition missingDeviceArgs : list string :=
  ["--project"; "/p"; "--scheme"; "App"; "--command"; "test";
   "--device"; "iPhone 99"; "--quiet"].

(** The strings the script looks for in the argument list. *)
Definition optionNames : list string :=
  ["--help"; "-h"; "--command"; "--project"; "--scheme"; "--device"; "--log";
   "--quiet"; "--archive-path"; "--timeout"].

(** [s] is one of them. *)
Definition isOptionName (s : string) : bool := JS.arrayIncludes s optionNames.

(** Recognisers and a counter for the effects of a run. *)
Definition isLogEnd (e : effect) : bool :=
  match e with LogEnd => true | _ => false end.
Definition isProcessExit (e : effect) : bool :=
  match e with ProcessExit _ => true | _ => false end.
Definition isErrorLine (e : effect) : bool :=
  match e with Print _ (ErrorLine _) => true | _ => false end.

Definition count (p : effect -> bool) (t : list effect) : nat :=
  List.length (filter p t).

(** How often the body of the teardown routine has run: it ends the log
    stream exactly once each time. *)
Definition teardowns (s : SupervisedRun) : nat := count isLogEnd (effects s).
(** How often [process.exit] has been called. *)
Definition exitCalls (s : SupervisedRun) : nat := count isProcessExit (effects s).

(** The effects of one run of the teardown routine in state [s]. *)
Definition teardownEffects (s : SupervisedRun) (code : option Z) : list effect :=
  ([ClearTimeout]
   ++ match progressInterval s with Some _ => [ClearInterval] | None => [] end
   ++ (if hasPid s then [KillGroup (groupAlive s)] else [])
   ++ [LogEnd; SetExitTimer code])%list.

(** The diagnostics of lines 271-285 for a log that reads as [logContent]. *)
Definition diagnostics (logContent : option string) : list effect :=
  match logContent with
  | None => []
  | Some content =>
      (match errorMatch content with
       | Some m => [Print stderr (ErrorLine m)]
       | None => []
       end
       ++ (if JS.includes "Unable to find a device" content
           then [Print stderr DeviceTip; Print stderr DeviceTipCommand]
           else []))%list
  end.

(** Everything the completion handler prints before the teardown. *)
Definition closeReport (rr : RunRequest) (startTime : Z) (flag : bool)
    (code : option Z) (now : Z) (logContent : option string) : list effect :=
  let label := JS.toUpperCase (rr_command rr) in
  ((if rr_quiet rr then [] else [Print stdout ClearProgress])
   ++ if flag then
        [Print stderr Rule; Print stderr (TimedOutReport label (rr_timeout rr));
         Print stderr Rule; Print stderr (FullLog (rr_logFile rr))]
      else
        match code with
        | Some 0%Z =>
            [Print stdout Rule;
             Print stdout (SuccessReport label ((now - startTime) / 1000));
             Print stdout Rule; Print stdout (FullLog (rr_logFile rr))]
        | _ =>
            [Print stderr Rule; Print stderr (FailedReport label code);
             Print stderr Rule]
            ++ diagnostics logContent
            ++ [Print stderr (FullLog (rr_logFile rr))]
        end)%list.

(** The code the completion handler hands to the teardown. *)
Definition closeCode (flag : bool) (code : option Z) : option Z :=
  if flag then Some 124%Z else code.

(** The exit timers an event arms, in a state where the flag is [flag]. *)
Definition armedBy (flag : bool) (e : event) : list (option Z) :=
  match e with
  | Close code _ _ => [closeCode flag code]
  | SIGINT => [Some 130%Z]
  | SIGTERM => [Some 143%Z]
  | _ => []
  end.

(** The three events that start the teardown. *)
Definition startsTeardown (e : event) : bool :=
  match e with
  | Close _ _ _ | SIGINT | SIGTERM => true
  | _ => false
  end.

(** A resolved request for the examples: a quiet [build]. *)
Definition sampleRequest : RunRequest :=
  {| rr_projectPath := "/p";
     rr_scheme := "App";
     rr_command := "build";
     rr_deviceName := "iPhone 16 Pro";
     rr_timeout := JS.Fin 300;
     rr_logFile := "/tmp/xcode-build.log";
     rr_archivePath := None;
     rr_quiet := true;
     rr_buildTarget := "-project App.xcodeproj";
     rr_commandVerb := "Building";
     rr_buildCmd := "xcodebuild -project App.xcodeproj -scheme App build" |}.

(** The state after [spawn] of a child with process id 4242 at time 0. *)
Definition started : SupervisedRun := spawnState sampleRequest (Some 4242%Z) 0.

(** The child completes with code 0 and an interrupt arrives before the
    exit timer fires. *)
Definition completedThenInterrupted : SupervisedRun :=
  stateOf (run sampleRequest 0 started [Close (Some 0%Z) 5000 None; SIGINT]).

(** The timer fires, then an interrupt arrives before the completion of
    the child is reported; the child reports code 0. *)
Definition interruptedAfterTimeout : process :=
  run sampleRequest 0 started
    [TimeoutFires; SIGINT; Close (Some 0%Z) 300010 None; ExitTimerFires].

(** A child that is ended by a signal from elsewhere: it reports no exit
    code. *)
Definition signalledChild : process :=
  run sampleRequest 0 started [Close None 7000 None; ExitTimerFires].

(** The child fails with code 65 and an interrupt arrives before the exit
    timer fires. *)
Definition interruptedAfterFailure : process :=
  run sampleRequest 0 started [Close (Some 65%Z) 9000 None; SIGINT; ExitTimerFires].

(** The line feed character. *)
Definition LF : string := JS.bytes [10].

(* ------------------------------------------------------------------ *)
(** *** Definitions used in the further facts *)

Definition isStdout (e : effect) : bool :=
  match e with Print stdout _ => true | _ => false end.
Definition isCreateWriteStream (e : effect) : bool :=
  match e with CreateWriteStream _ => true | _ => false end.

Definition isStderr (e : effect) : bool :=
  match e with Print stderr _ => true | _ => false end.

(** A system in which no directory can be read. *)
Definition unreadableWorld : World :=
  {| readdirSync := fun _ => None;
     simctl := inl "not used";
     path_resolve := fun from to => to |}.

(** What a run that reaches [spawn] hands on. *)
Definition handsOn (args : list string) (os : World) (rr : RunRequest) : Prop :=
  rr_buildCmd rr =
    JS.join " " (buildCmdParts (rr_command rr) (rr_buildTarget rr) (rr_scheme rr)
                   (rr_deviceName rr) (rr_archivePath rr)) /\
  (exists f, rr_buildTarget rr = "-workspace " ++ quoted f \/
             rr_buildTarget rr = "-project " ++ quoted f) /\
  scheme args = Some (rr_scheme rr) /\
  rr_deviceName rr = deviceName args /\
  rr_logFile rr = logFile args /\
  rr_commandVerb rr = commandVerb args /\
  JS.arrayIncludes (rr_command rr) ALLOWED_COMMANDS = true /\
  rr_archivePath rr =
    (if String.eqb (rr_command rr) "archive"
     then option_map (path_resolve os (rr_projectPath rr)) (archivePathArg args)
     else None) /\
  (rr_command rr = "archive" -> exists a, archivePathArg args = Some a).

(** The state the teardown routine leaves. *)
Definition afterCleanup (code : option Z) (s : SupervisedRun) : SupervisedRun :=
  {| timedOut := timedOut s;
     lastOutput := lastOutput s;
     timeoutHandle := false;
     progressInterval :=
       match progressInterval s with Some _ => Some false | None => None end;
     pid := pid s;
     groupAlive := groupAlive s;
     exitTimers := exitTimers s ++ [code];
     logEnded := true;
     effects := effects s ++ teardownEffects s code |}.

(** What the timeout callback does to the process group. *)
Definition timeoutEffects (s : SupervisedRun) : list effect :=
  if hasPid s then
    if groupAlive s then [KillGroup true] else [KillGroup false; KillChild]
  else [].

(** The state the timeout callback leaves. *)
Definition afterTimeout (s : SupervisedRun) : SupervisedRun :=
  {| timedOut := true;
     lastOutput := lastOutput s;
     timeoutHandle := timeoutHandle s;
     progressInterval := progressInterval s;
     pid := pid s;
     groupAlive := groupAlive s;
     exitTimers := exitTimers s;
     logEnded := logEnded s;
     effects := effects s ++ timeoutEffects s |}.

(** The state after an event other than the firing of an exit timer. *)
Definition next (rr : RunRequest) (startTime : Z) (s : SupervisedRun) (e : event)
    : SupervisedRun :=
  match e with
  | TimeoutFires =>
      if timeoutHandle s then afterTimeout (set_timeoutHandle false s) else s
  | ProgressTick now =>
      match progressInterval s with
      | Some true =>
          set_effects
            (effects s ++ [Print stdout (Progress (rr_commandVerb rr)
                                           ((now - startTime) / 1000))]) s
      | _ => s
      end
  | StdoutData data now | StderrData data now =>
      set_lastOutput now
        (set_effects
           (effects s ++ [if logEnded s then LogWriteAfterEnd data else LogWrite data]) s)
  | Close code now logContent =>
      afterCleanup (closeCode (timedOut s) code)
        (set_effects
           (effects s ++ closeReport rr startTime (timedOut s) code now logContent) s)
  | SIGINT =>
      afterCleanup (Some 130%Z)
        (set_effects
           (effects s ++ [Print stdout (Cancelled (JS.toUpperCase (rr_command rr)))]) s)
  | SIGTERM =>
      afterCleanup (Some 143%Z)
        (set_effects
           (effects s ++ [Print stdout (Terminated (JS.toUpperCase (rr_command rr)))]) s)
  | ExitTimerFires => s
  | GroupGone => set_groupAlive false s
  end.

(** The state in which the process exits when an exit timer fires. *)
Definition exited (code : option Z) (rest : list (option Z)) (s : SupervisedRun)
    : SupervisedRun :=
  set_effects (effects s ++ [ProcessExit code]) (set_exitTimers rest s).

(** The part of the state that decides whether and how the wrapper
    exits: everything but the effects performed, the time of the last
    output and the state of the log stream. *)
Definition control (s : SupervisedRun)
    : bool * bool * option bool * option Z * bool * list (option Z) :=
  (timedOut s, timeoutHandle s, progressInterval s, pid s, groupAlive s, exitTimers s).

(** Progress ticks and output of the child. *)
Definition cosmetic (e : event) : bool :=
  match e with
  | ProgressTick _ | StdoutData _ _ | StderrData _ _ => true
  | _ => false
  end.

(** The events of a run that come before the first one that starts the
    teardown. *)
Fixpoint beforeTeardown (events : list event) : list event :=
  match events with
  | [] => []
  | e :: rest => if startsTeardown e then [] else e :: beforeTeardown rest
  end.

(** Something is printed. *)
Definition isPrint (e : effect) : bool :=
  match e with Print _ _ => true | _ => false end.

(** A signal is sent to the child or to its group. *)
Definition isKill (e : effect) : bool :=
  match e with KillGroup _ | KillChild => true | _ => false end.

(** The chunks written to the log stream, in order. *)
Definition logWrites (t : list effect) : list string :=
  flat_map (fun e => match e with LogWrite data => [data] | _ => [] end) t.

(** The output of the child carried by a list of events, in order. *)
Definition chunks (events : list event) : list string :=
  flat_map (fun e => match e with
                     | StdoutData data _ | StderrData data _ => [data]
                     | _ => []
                     end) events.

Definition isProgress (e : effect) : bool :=
  match e with
  | Print _ (Progress _ _) => true
  | _ => false
  end.

(** How many progress lines have been printed. *)
Definition progressLines (s : SupervisedRun) : nat := count isProgress (effects s).

(** The process ended in an uncaught exception. *)
Definition crashed (p : process) : bool :=
  match p with Crashed _ _ => true | _ => false end.

(** The process has called [process.exit]. *)
Definition hasExited (p : process) : bool :=
  match p with Exited _ _ => true | _ => false end.

(** Whether a list of events ends the process: [pending] says that an
    exit timer is armed. *)
Fixpoint willExit (pending : bool) (events : list event) : bool :=
  match events with
  | [] => false
  | ExitTimerFires :: rest => if pending then true else willExit false rest
  | e :: rest => willExit (pending || startsTeardown e) rest
  end.

(* ================================================================== *)
(** ** Facts about the synchronous part *)
(* ================================================================== *)


(** Unfolds the script and follows every branch to its end. *)
Ltac unfold_script :=
  unfold main, discover, readdir, verifyDevice, printUsage, when, log, error,
    perform, exit, throw, bind, ret, trace, outcome in *.

Ltac branch :=
  match goal with
  | |- context [match ?x with _ => _ end] =>
      lazymatch x with
      | context [match _ with _ => _ end] => fail
      | _ => destruct x eqn:?
      end
  end.

Ltac follow_script := unfold_script; repeat (branch; cbn [app fst snd] in * ).

(** Closes a goal about the trace and the result of one branch. *)
Ltac settle_trace :=
  let E := fresh "E" in
  intros E; inversion E; subst; clear E;
  unfold enumerated, spawned, readDirectory;
  cbn [existsb isExecSync isSpawn isReaddir orb app In];
  intros; try discriminate;
  repeat match goal with
         | H : inr _ = inr _ |- _ => injection H as H; subst
         | H : inl _ = inl _ |- _ => injection H as H; subst
         | H : negb _ = false |- _ => apply negb_false_iff in H
         | H : negb _ = true |- _ => apply negb_true_iff in H
         end;
  try congruence;
  repeat split; try reflexivity; try congruence;
  try (intuition congruence).

Ltac unfold_handler :=
  cbv [onClose onSIGINT onSIGTERM onTimeout onProgress onData cleanup
       processKillGroup logStreamWrite hbind hret hthrow tryCatch get modify
       emit hwhen
       set_timedOut set_lastOutput set_timeoutHandle set_progressInterval
       set_groupAlive set_exitTimers set_logEnded set_effects
       timedOut lastOutput timeoutHandle progressInterval pid groupAlive
       exitTimers logEnded effects].

Example parseInt_300 : JS.parseInt (JS.String_ 300) = JS.Fin 300.
Proof. reflexivity. Qed.

Example parseInt_examples :
  JS.parseInt "  42" = JS.Fin 42 /\ JS.parseInt "-7" = JS.Fin (-7) /\
  JS.parseInt "abc" = JS.NaN /\ JS.parseInt "" = JS.NaN /\
  JS.parseInt "12px" = JS.Fin 12 /\ JS.parseInt "0" = JS.Fin 0.
Proof. repeat split; reflexivity. Qed.

(** [substring] counts UTF-16 units: the two bytes of an e with acute
    accent are one unit, the four bytes of U+1F528 are two, and half of
    them is printed as U+FFFD. *)
Example substring0_examples :
  JS.substring0 80 "xcodebuild" = "xcodebuild" /\
  JS.substring0 4 "xcodebuild" = "xcod" /\
  JS.substring0 2 (JS.bytes [195; 169] ++ "xyz") = JS.bytes [195; 169] ++ "x" /\
  JS.substring0 3 ("a" ++ JS.bytes [240; 159; 148; 168] ++ "b") =
    "a" ++ JS.bytes [240; 159; 148; 168] /\
  JS.substring0 2 ("a" ++ JS.bytes [240; 159; 148; 168] ++ "b") =
    "a" ++ JS.bytes [239; 191; 189].
Proof. repeat split; reflexivity. Qed.

Example endsWith_examples :
  JS.endsWith ".xcodeproj" "App.xcodeproj" = true /\
  JS.endsWith ".xcodeproj" "App.xcodeproj.bak" = false /\
  JS.includes "iPhone 16" "== Devices == iPhone 16 Pro (Booted)" = true.
Proof. repeat split; reflexivity. Qed.

Example main_build_run :
  let w := sampleWorld ["README.md"; "App.xcodeproj"] (inr "-- iOS 18 -- iPhone 16 Pro (Shutdown)") in
  let m := main ["--project"; "/p"; "--scheme"; "App"; "--quiet"] w in
  option_map rr_buildCmd (match outcome m with Done rr => Some rr | _ => None end)
  = Some ("xcodebuild -project " ++ quoted "App.xcodeproj" ++ " -scheme " ++ quoted "App"
          ++ " -destination " ++ quoted "platform=iOS Simulator,name=iPhone 16 Pro"
          ++ " -skipMacroValidation build")
  /\ trace m = [ReaddirSync "/p"; ReaddirSync "/p";
                ExecSync "xcrun simctl list devices available";
                CreateWriteStream "/tmp/xcode-build.log";
                Spawn "sh" ["-c"; "xcodebuild -project " ++ quoted "App.xcodeproj"
                  ++ " -scheme " ++ quoted "App"
                  ++ " -destination " ++ quoted "platform=iOS Simulator,name=iPhone 16 Pro"
                  ++ " -skipMacroValidation build"] "/p"].
Proof. split; reflexivity. Qed.

(* ------------------------------------------------------------------ *)
(** *** The string primitives mean what their names say *)

Lemma append_assoc (a b c : string) : (a ++ b) ++ c = a ++ (b ++ c).
Proof. induction a as [|x a IH]; cbn; [reflexivity | now rewrite IH]. Qed.

Lemma length_append (a b : string) :
  String.length (a ++ b) = (String.length a + String.length b)%nat.
Proof. induction a as [|x a IH]; cbn; [reflexivity | now rewrite IH]. Qed.

Lemma startsWith_spec (p s : string) :
  JS.startsWith p s = true <-> exists post, s = p ++ post.
Proof.
  revert s. induction p as [|a p IH]; intros s; cbn.
  - split; [intros _; exists s; reflexivity | reflexivity].
  - destruct s as [|b s].
    + split; [discriminate | intros (post & E); discriminate E].
    + rewrite andb_true_iff, Ascii.eqb_eq, IH. split.
      * intros (-> & post & ->). exists post. reflexivity.
      * intros (post & E). inversion E. split; [reflexivity | exists post; reflexivity].
Qed.

Lemma includes_unfold (needle hay : string) :
  JS.includes needle hay =
  (JS.startsWith needle hay ||
   match hay with
   | EmptyString => false
   | String _ rest => JS.includes needle rest
   end)%bool.
Proof. destruct hay; reflexivity. Qed.

(** [includes] is the substring test. *)
Lemma includes_spec (needle hay : string) :
  JS.includes needle hay = true <-> exists pre post, hay = pre ++ needle ++ post.
Proof.
  split.
  - induction hay as [|c hay IH]; rewrite includes_unfold; intros Hi;
      apply orb_true_iff in Hi; destruct Hi as [Hs|Hr]; try discriminate Hr.
    + apply startsWith_spec in Hs. destruct Hs as (post & E).
      exists "", post. exact E.
    + apply startsWith_spec in Hs. destruct Hs as (post & E).
      exists "", post. exact E.
    + destruct (IH Hr) as (pre & post & E).
      exists (String c pre), post. cbn. now rewrite E.
  - intros (pre & post & ->). induction pre as [|c pre IH]; rewrite includes_unfold.
    + apply orb_true_iff. left. apply startsWith_spec. exists post. reflexivity.
    + apply orb_true_iff. right. exact IH.
Qed.

Lemma endsWith_unfold (suffix s : string) :
  JS.endsWith suffix s =
  (String.eqb s suffix ||
   match s with
   | EmptyString => false
   | String _ rest => JS.endsWith suffix rest
   end)%bool.
Proof. destruct s; reflexivity. Qed.

(** [endsWith] is the suffix test. *)
Lemma endsWith_spec (suffix s : string) :
  JS.endsWith suffix s = true <-> exists pre, s = pre ++ suffix.
Proof.
  split.
  - induction s as [|c s IH]; rewrite endsWith_unfold; intros Hi;
      apply orb_true_iff in Hi; destruct Hi as [Hs|Hr]; try discriminate Hr.
    + apply String.eqb_eq in Hs. exists "". exact Hs.
    + apply String.eqb_eq in Hs. exists "". exact Hs.
    + destruct (IH Hr) as (pre & E). exists (String c pre). cbn. now rewrite E.
  - intros (pre & ->). induction pre as [|c pre IH]; rewrite endsWith_unfold.
    + apply orb_true_iff. left. apply String.eqb_refl.
    + apply orb_true_iff. right. exact IH.
Qed.

(** [getArg] gives the argument after the first occurrence of the flag,
    and never the empty string. *)
Lemma getArg_first (pre post : list string) (flag v : string) :
  ~ In flag pre -> v <> "" ->
  getArg (pre ++ flag :: v :: post) flag = Some v.
Proof.
  intros Hpre Hv. unfold getArg.
  assert (Hi : JS.indexOf flag (pre ++ flag :: v :: post) = Some (List.length pre)).
  { induction pre as [|a pre IH]; cbn.
    - now rewrite String.eqb_refl.
    - destruct (String.eqb a flag) eqn:E.
      + apply String.eqb_eq in E. subst a. exfalso. apply Hpre. now left.
      + rewrite IH; [reflexivity|]. intros Hin. apply Hpre. now right. }
  rewrite Hi.
  replace (List.length pre + 1)%nat with (List.length (pre ++ [flag]))
    by (rewrite length_app; reflexivity).
  change (pre ++ flag :: v :: post)%list with (pre ++ [flag] ++ v :: post)%list.
  rewrite app_assoc, nth_error_app2, Nat.sub_diag by lia. cbn.
  unfold JS.truthy. destruct (String.eqb v "") eqn:E; [|reflexivity].
  apply String.eqb_eq in E. contradiction.
Qed.

(* ------------------------------------------------------------------ *)
(** *** How the script ends *)

(** The script ends in one of three ways, and when it calls [process.exit]
    the code is 0 for the help text and 1 otherwise; no child has been
    started then. *)
Lemma main_exit_code (args : list string) (os : World) (t : list effect) (c : Z) :
  main args os = (t, Exit c) ->
  (wantsHelp args = true /\ c = 0%Z) \/ (wantsHelp args = false /\ c = 1%Z).
Proof.
  follow_script; intros E; inversion E; subst; auto.
Qed.

Lemma main_exit_no_spawn (args : list string) (os : World) (t : list effect) (c : Z) :
  main args os = (t, Exit c) -> spawned t = false.
Proof.
  follow_script; intros E; inversion E; subst; reflexivity.
Qed.

Lemma main_done_request (args : list string) (os : World) (t : list effect)
    (rr : RunRequest) :
  main args os = (t, Done rr) ->
  spawned t = true /\
  rr_command rr = command args /\
  rr_timeout rr = timeout args /\
  rr_quiet rr = quiet args /\
  projectPath args = Some (rr_projectPath rr) /\
  JS.leZero (timeout args) = false /\ JS.isFinite (timeout args) = true.
Proof.
  follow_script; intros E; inversion E; subst; cbn;
    repeat match goal with
           | H : (_ || _)%bool = false |- _ => apply orb_false_elim in H; destruct H
           | H : negb _ = false |- _ => apply negb_false_iff in H
           end;
    repeat split; auto;
    unfold spawned; rewrite ?existsb_app; cbn; rewrite ?orb_true_r; reflexivity.
Qed.

(* ------------------------------------------------------------------ *)
(** *** Default timeout *)

(** C5.  When [--timeout] is not given, the timeout is 600 seconds for
    [test] and 300 seconds for any other operation, and this is the timeout
    handed to the supervision part whenever the script gets that far. *)
Theorem default_timeout (args : list string) :
  timeoutArg args = None ->
  timeout args = JS.Fin (if String.eqb (command args) "test" then 600 else 300) /\
  forall os t rr, main args os = (t, Done rr) ->
    rr_timeout rr = JS.Fin (if String.eqb (command args) "test" then 600 else 300).
Proof.
  intros Hnone.
  assert (Ht : timeout args =
               JS.Fin (if String.eqb (command args) "test" then 600 else 300)).
  { unfold timeout, defaultTimeout. rewrite Hnone.
    destruct (String.eqb (command args) "test"); reflexivity. }
  split; [exact Ht|].
  intros os t rr Hmain.
  apply main_done_request in Hmain.
  destruct Hmain as (_ & _ & Hto & _). now rewrite Hto.
Qed.

Lemma default_timeout_witness :
  timeout ["--project"; "/p"; "--scheme"; "App"; "--command"; "test"] = JS.Fin 600 /\
  timeout ["--project"; "/p"; "--scheme"; "App"; "--command"; "archive";
           "--archive-path"; "out.xcarchive"] = JS.Fin 300 /\
  option_map rr_timeout
    (done (main ["--project"; "/p"; "--scheme"; "App"; "--command"; "test"] appWorld))
  = Some (JS.Fin 600).
Proof.
  split; [|split].
  - exact (proj1 (default_timeout
      ["--project"; "/p"; "--scheme"; "App"; "--command"; "test"] eq_refl)).
  - exact (proj1 (default_timeout
      ["--project"; "/p"; "--scheme"; "App"; "--command"; "archive";
       "--archive-path"; "out.xcarchive"] eq_refl)).
  - eassert (E : main ["--project"; "/p"; "--scheme"; "App"; "--command"; "test"]
                   appWorld = (_, Done _)) by (vm_compute; reflexivity).
    unfold done, outcome. rewrite E.
    exact (f_equal Some (proj2 (default_timeout
      ["--project"; "/p"; "--scheme"; "App"; "--command"; "test"] eq_refl)
      appWorld _ _ E)).
Defined.

(* ------------------------------------------------------------------ *)
(** *** Timeout validation *)

(** A timeout that [parseInt] reads as NaN, as an infinity or as a number
    that is not positive ends the script with code 1 before the directory
    is read. *)
Lemma invalid_timeout_rejected (args : list string) (os : World) :
  wantsHelp args = false ->
  (JS.isFinite (timeout args) = false \/ JS.leZero (timeout args) = true) ->
  exists t, main args os = (t, Exit 1) /\ spawned t = false /\ readDirectory t = false.
Proof.
  intros Hh Hbad.
  assert (Hc : (negb (JS.isFinite (timeout args)) || JS.leZero (timeout args))%bool = true).
  { destruct Hbad as [-> | ->]; [reflexivity | apply orb_true_r]. }
  unfold_script. rewrite Hh, Hc.
  repeat (branch; cbn [app fst snd] in * );
    eexists; (split; [reflexivity|]); split; reflexivity.
Qed.

(** C6.  The timeout string [10abc] does not denote a positive integer, yet
    the script reads it as 10 and starts the child: [parseInt] stops at the
    first character that is not a digit and ignores the rest. *)
Theorem timeout_trailing_text_accepted :
  timeoutArg trailingTextArgs = Some "10abc" /\
  timeout trailingTextArgs = JS.Fin 10 /\
  main trailingTextArgs appWorld =
    ([ReaddirSync "/p"; ReaddirSync "/p";
      CreateWriteStream "/tmp/xcode-build.log";
      Spawn "sh" ["-c"; "xcodebuild -project " ++ quoted "App.xcodeproj" ++
                        " -scheme " ++ quoted "App" ++
                        " -skipMacroValidation clean"] "/p"],
     Done {| rr_projectPath := "/p";
             rr_scheme := "App";
             rr_command := "clean";
             rr_deviceName := "iPhone 16 Pro";
             rr_timeout := JS.Fin 10;
             rr_logFile := "/tmp/xcode-build.log";
             rr_archivePath := None;
             rr_quiet := true;
             rr_buildTarget := "-project " ++ quoted "App.xcodeproj";
             rr_commandVerb := "Cleaning";
             rr_buildCmd := "xcodebuild -project " ++ quoted "App.xcodeproj" ++
                            " -scheme " ++ quoted "App" ++
                            " -skipMacroValidation clean" |}).
Proof. repeat split. Qed.

(* ------------------------------------------------------------------ *)
(** *** Archive path *)

(** C7.  With operation [archive] and no [--archive-path] (and no request
    for the help text, which ends the script before anything else), the
    script exits with code 1, and it has neither read the target directory
    nor started a child by then. *)
Theorem archive_path_required_before_discovery (args : list string) (os : World) :
  wantsHelp args = false ->
  command args = "archive" ->
  archivePathArg args = None ->
  exists t, main args os = (t, Exit 1) /\ readDirectory t = false /\ spawned t = false.
Proof.
  intros Hh Hc Ha.
  unfold_script. rewrite Hh, Hc, Ha. cbn [String.eqb Ascii.eqb Bool.eqb andb].
  repeat (branch; cbn [app fst snd] in * );
    eexists; (split; [reflexivity|]); split; reflexivity.
Qed.

Lemma archive_path_required_witness :
  exists t,
    main ["--project"; "/p"; "--scheme"; "App"; "--command"; "archive"] appWorld
      = (t, Exit 1) /\ readDirectory t = false /\ spawned t = false.
Proof.
  exact (archive_path_required_before_discovery
           ["--project"; "/p"; "--scheme"; "App"; "--command"; "archive"] appWorld
           eq_refl eq_refl eq_refl).
Defined.

(* ------------------------------------------------------------------ *)
(** *** Descriptor discovery *)

(** C4, as stated, fails: a directory with two project descriptors is not
    an error.  The script takes the first one and starts the child. *)
Lemma multiple_descriptors_accepted :
  spawned (trace (main cleanArgs twoProjectsWorld)) = true /\
  option_map rr_buildTarget (done (main cleanArgs twoProjectsWorld))
    = Some ("-project " ++ quoted "A.xcodeproj").
Proof. split; reflexivity. Qed.

(** C4, amended.  In a readable target directory, the first entry ending in
    [.xcworkspace] is selected if there is one (whether or not there are
    projects, and however many entries match); otherwise the first entry
    ending in [.xcodeproj]; more than one descriptor is not an error.  When
    there is neither, discovery ends the script with code 1, and the whole
    script then exits with code 1 without having started a child. *)
Theorem descriptor_resolution (os : World) (dir : string) (entries : list string) :
  readdirSync os dir = Some entries ->
  (forall f, JS.find (JS.endsWith ".xcworkspace") entries = Some f ->
     discover os dir =
       ([ReaddirSync dir; ReaddirSync dir], Done ("-workspace " ++ quoted f))) /\
  (forall f, JS.find (JS.endsWith ".xcworkspace") entries = None ->
     JS.find (JS.endsWith ".xcodeproj") entries = Some f ->
     discover os dir =
       ([ReaddirSync dir; ReaddirSync dir], Done ("-project " ++ quoted f))) /\
  (JS.find (JS.endsWith ".xcworkspace") entries = None ->
   JS.find (JS.endsWith ".xcodeproj") entries = None ->
     discover os dir =
       ([ReaddirSync dir; ReaddirSync dir; Print stderr (NoDescriptor dir)], Exit 1) /\
     forall args, wantsHelp args = false -> projectPath args = Some dir ->
       exists t, main args os = (t, Exit 1) /\ spawned t = false) /\
  (forall args t rr, projectPath args = Some dir -> main args os = (t, Done rr) ->
     exists f, rr_buildTarget rr =
       match JS.find (JS.endsWith ".xcworkspace") entries with
       | Some _ => "-workspace " ++ quoted f
       | None => "-project " ++ quoted f
       end /\
       match JS.find (JS.endsWith ".xcworkspace") entries with
       | Some g => f = g
       | None => JS.find (JS.endsWith ".xcodeproj") entries = Some f
       end).
Proof.
  intros Hdir. split; [|split; [|split]].
  - intros f Hw. unfold discover, readdir, perform, bind, ret, throw.
    rewrite Hdir. cbn. rewrite Hw. reflexivity.
  - intros f Hw Hp. unfold discover, readdir, perform, bind, ret, throw.
    rewrite Hdir. cbn. rewrite Hw, Hp. reflexivity.
  - intros Hw Hp. split.
    + unfold discover, readdir, perform, bind, ret, throw, error, exit.
      rewrite Hdir. cbn. rewrite Hw, Hp. reflexivity.
    + intros args Hh Hd.
      unfold_script. rewrite Hh, Hd, Hdir. cbn [app fst snd]. rewrite Hw, Hp.
      repeat (branch; cbn [app fst snd] in * );
        eexists; (split; [reflexivity|]); reflexivity.
  - intros args t rr Hd.
    unfold_script. rewrite Hd, Hdir. cbn [app fst snd].
    repeat (branch; cbn [app fst snd] in * ); intros E; inversion E; subst; cbn;
      eexists; split; reflexivity.
Qed.

Lemma descriptor_resolution_witness :
  discover (sampleWorld bothDescriptors (inl "not used")) "/p" =
    ([ReaddirSync "/p"; ReaddirSync "/p"], Done ("-workspace " ++ quoted "App.xcworkspace"))
  /\
  exists t, main cleanArgs (sampleWorld ["README.md"] (inl "not used")) = (t, Exit 1)
            /\ spawned t = false.
Proof.
  split.
  - exact (proj1 (descriptor_resolution (sampleWorld bothDescriptors (inl "not used"))
                    "/p" bothDescriptors eq_refl)
             "App.xcworkspace" eq_refl).
  - exact (proj2 (proj1 (proj2 (proj2
             (descriptor_resolution (sampleWorld ["README.md"] (inl "not used"))
                "/p" ["README.md"] eq_refl))) eq_refl eq_refl)
             cleanArgs eq_refl eq_refl).
Defined.

(* ------------------------------------------------------------------ *)
(** *** Device validation *)

(** C8.  The enumeration tool is invoked only for the operations [build]
    and [test].  When its output does not contain the device name, the
    validator prints the whole output and ends the script with code 1; when
    the tool cannot be invoked it reports that instead, and also ends the
    script with code 1.  In both cases no child has been started. *)
Theorem device_validation (args : list string) (os : World) :
  (forall t r, main args os = (t, r) -> enumerated t = true ->
     usesSimulatorDestination (command args) = true) /\
  (forall cmd name q, usesSimulatorDestination cmd = false ->
     verifyDevice os cmd name q = ([], Done tt)) /\
  (forall cmd name q devices,
     usesSimulatorDestination cmd = true ->
     simctl os = inr devices -> JS.includes name devices = false ->
     verifyDevice os cmd name q =
       ([ExecSync simctlCommand; Print stderr (DeviceNotFound name);
         Print stderr AvailableDevices; Print stderr (Raw devices)], Exit 1)) /\
  (forall cmd name q err,
     usesSimulatorDestination cmd = true -> simctl os = inl err ->
     verifyDevice os cmd name q =
       ([ExecSync simctlCommand; Print stderr (FailedToListDevices err)], Exit 1)) /\
  (forall t r devices, main args os = (t, r) -> enumerated t = true ->
     simctl os = inr devices -> JS.includes (deviceName args) devices = false ->
     r = Exit 1 /\ spawned t = false /\ In (Print stderr (Raw devices)) t) /\
  (forall t r err, main args os = (t, r) -> enumerated t = true ->
     simctl os = inl err ->
     r = Exit 1 /\ spawned t = false /\ In (Print stderr (FailedToListDevices err)) t).
Proof.
  split; [|split; [|split; [|split; [|split]]]].
  - intros t r. follow_script; settle_trace.
  - intros cmd name q Hc. unfold verifyDevice, when. rewrite Hc. reflexivity.
  - intros cmd name q devices Hc Hs Hi.
    unfold verifyDevice, when, perform, error, exit, bind, ret.
    rewrite Hc, Hs, Hi. reflexivity.
  - intros cmd name q err Hc Hs.
    unfold verifyDevice, when, perform, error, exit, bind, ret.
    rewrite Hc, Hs. reflexivity.
  - intros t r devices. follow_script; settle_trace.
  - intros t r err. follow_script; settle_trace.
Qed.

Lemma device_validation_witness :
  outcome (main missingDeviceArgs appWorld) = Exit 1 /\
  spawned (trace (main missingDeviceArgs appWorld)) = false /\
  In (Print stderr (Raw "-- iOS 18.2 -- iPhone 16 Pro (4C1F) (Shutdown)"))
     (trace (main missingDeviceArgs appWorld)).
Proof.
  assert (Em : main missingDeviceArgs appWorld =
               (trace (main missingDeviceArgs appWorld),
                outcome (main missingDeviceArgs appWorld)))
    by (unfold trace, outcome; destruct (main missingDeviceArgs appWorld); reflexivity).
  assert (En : enumerated (trace (main missingDeviceArgs appWorld)) = true)
    by (vm_compute; reflexivity).
  assert (Ei : JS.includes (deviceName missingDeviceArgs)
                 "-- iOS 18.2 -- iPhone 16 Pro (4C1F) (Shutdown)" = false)
    by (vm_compute; reflexivity).
  exact (proj1 (proj2 (proj2 (proj2 (proj2
           (device_validation missingDeviceArgs appWorld)))))
           _ _ _ Em En eq_refl Ei).
Defined.

(* ------------------------------------------------------------------ *)
(** *** The operation is read case-insensitively *)

(** [getArg], one argument at a time. *)
Lemma getArg_cons (a : string) (rest : list string) (flag : string) :
  getArg (a :: rest) flag =
    if String.eqb a flag then
      match rest with
      | v :: _ => if JS.truthy v then Some v else None
      | [] => None
      end
    else getArg rest flag.
Proof.
  unfold getArg. cbn [JS.indexOf].
  destruct (String.eqb a flag).
  - cbn. destruct rest; reflexivity.
  - destruct (JS.indexOf flag rest) as [i|]; cbn; reflexivity.
Qed.

Lemma toLowerCase_empty (s : string) : JS.toLowerCase s = "" <-> s = "".
Proof.
  destruct s; cbn; split; intros E; try reflexivity; discriminate E.
Qed.

Lemma truthy_toLowerCase (c1 c2 : string) :
  JS.toLowerCase c1 = JS.toLowerCase c2 -> JS.truthy c1 = JS.truthy c2.
Proof.
  intros E. unfold JS.truthy.
  destruct c1, c2; cbn in *; try reflexivity; discriminate E.
Qed.

Lemma not_option_neq (c flag : string) :
  isOptionName c = false -> In flag optionNames -> c <> flag.
Proof.
  intros Hc Hin ->. unfold isOptionName, JS.arrayIncludes in Hc.
  assert (Ht : existsb (String.eqb flag) optionNames = true).
  { apply existsb_exists. exists flag. split; [exact Hin | apply String.eqb_refl]. }
  congruence.
Qed.

Section CommandValue.

Variables (pre post : list string) (c1 c2 : string).
Hypothesis same_lower : JS.toLowerCase c1 = JS.toLowerCase c2.
Hypothesis not_option1 : isOptionName c1 = false.
Hypothesis not_option2 : isOptionName c2 = false.

Let args1 := (pre ++ "--command" :: c1 :: post)%list.
Let args2 := (pre ++ "--command" :: c2 :: post)%list.

Lemma other_option_unaffected (flag : string) :
  In flag optionNames -> flag <> "--command" ->
  getArg args1 flag = getArg args2 flag.
Proof.
  intros Hin Hne. subst args1 args2.
  assert (N1 : String.eqb c1 flag = false)
    by (apply String.eqb_neq; now apply not_option_neq).
  assert (N2 : String.eqb c2 flag = false)
    by (apply String.eqb_neq; now apply not_option_neq).
  assert (N0 : String.eqb "--command" flag = false).
  { apply String.eqb_neq. congruence. }
  induction pre as [|a pre' IH].
  - cbn [app]. rewrite !getArg_cons, N0, N1, N2. reflexivity.
  - cbn [app]. rewrite !getArg_cons.
    destruct (String.eqb a flag).
    + destruct pre'; reflexivity.
    + exact IH.
Qed.

Lemma flag_presence_unaffected (flag : string) :
  In flag optionNames ->
  JS.arrayIncludes flag args1 = JS.arrayIncludes flag args2.
Proof.
  intros Hin. subst args1 args2. unfold JS.arrayIncludes.
  rewrite !existsb_app. cbn [existsb].
  assert (N1 : String.eqb flag c1 = false)
    by (apply String.eqb_neq; apply not_eq_sym; now apply not_option_neq).
  assert (N2 : String.eqb flag c2 = false)
    by (apply String.eqb_neq; apply not_eq_sym; now apply not_option_neq).
  rewrite N1, N2. reflexivity.
Qed.

Lemma command_unaffected : command args1 = command args2.
Proof.
  subst args1 args2. unfold command.
  induction pre as [|a pre' IH].
  - cbn [app]. rewrite !getArg_cons. cbn [String.eqb Ascii.eqb Bool.eqb].
    unfold orElse. rewrite (truthy_toLowerCase c1 c2 same_lower).
    destruct (JS.truthy c2) eqn:T; [|reflexivity].
    rewrite T, (truthy_toLowerCase c1 c2 same_lower), T. exact same_lower.
  - cbn [app]. rewrite !getArg_cons.
    destruct (String.eqb a "--command").
    + destruct pre'; reflexivity.
    + exact IH.
Qed.

Lemma main_unaffected (os : World) : main args1 os = main args2 os.
Proof.
  assert (In1 : forall f, In f optionNames -> f <> "--command" ->
                          getArg args1 f = getArg args2 f)
    by exact other_option_unaffected.
  assert (In2 : forall f, In f optionNames ->
                          JS.arrayIncludes f args1 = JS.arrayIncludes f args2)
    by exact flag_presence_unaffected.
  pose proof command_unaffected as Ec.
  assert (Eh : wantsHelp args1 = wantsHelp args2).
  { unfold wantsHelp. rewrite !In2; [reflexivity | cbn; auto 12 ..]. }
  assert (Eq : quiet args1 = quiet args2).
  { unfold quiet. apply In2. cbn; auto 12. }
  assert (Ep : projectPath args1 = projectPath args2).
  { unfold projectPath. apply In1; [cbn; auto 12 | discriminate]. }
  assert (Es : scheme args1 = scheme args2).
  { unfold scheme. apply In1; [cbn; auto 12 | discriminate]. }
  assert (Ed : deviceName args1 = deviceName args2).
  { unfold deviceName. rewrite In1; [reflexivity | cbn; auto 12 | discriminate]. }
  assert (El : logFile args1 = logFile args2).
  { unfold logFile. rewrite In1; [reflexivity | cbn; auto 12 | discriminate]. }
  assert (Ea : archivePathArg args1 = archivePathArg args2).
  { unfold archivePathArg. apply In1; [cbn; auto 12 | discriminate]. }
  assert (Eta : timeoutArg args1 = timeoutArg args2).
  { unfold timeoutArg. apply In1; [cbn; auto 12 | discriminate]. }
  assert (Et : timeout args1 = timeout args2).
  { unfold timeout, defaultTimeout. rewrite Eta, Ec. reflexivity. }
  assert (Ev : commandVerb args1 = commandVerb args2).
  { unfold commandVerb. rewrite Ec. reflexivity. }
  unfold main. rewrite Eh, Ep, Es, Ec, Et, Eta, Ea, Eq, Ed, El, Ev. reflexivity.
Qed.

End CommandValue.




(* ================================================================== *)
(** ** Facts about the event-driven part *)
(* ================================================================== *)

Lemma count_app (p : effect -> bool) (t u : list effect) :
  count p (t ++ u) = (count p t + count p u)%nat.
Proof. unfold count. rewrite filter_app. apply length_app. Qed.

(** The teardown routine never throws: a failed kill is caught.  It clears
    the timers, tries to kill the group, ends the log and arms one more
    exit timer behind those already pending. *)
Lemma cleanup_completes (code : option Z) (s : SupervisedRun) :
  exists s',
    cleanup code s = (Normal tt, s') /\
    exitTimers s' = (exitTimers s ++ [code])%list /\
    effects s' = (effects s ++ teardownEffects s code)%list /\
    timedOut s' = timedOut s /\
    timeoutHandle s' = false /\
    pid s' = pid s /\
    groupAlive s' = groupAlive s.
Proof.
  destruct s as [flag lo th pi p ga q le eff].
  unfold teardownEffects, hasPid. unfold_handler.
  destruct pi as [b|]; destruct p as [z|]; cbn;
    try (destruct (z =? 0)%Z; cbn); try (destruct ga; cbn);
    eexists; repeat split; cbn; rewrite <- ?app_assoc; try reflexivity; try discriminate.
Qed.

Lemma count_teardownEffects (s : SupervisedRun) (code : option Z) :
  count isLogEnd (teardownEffects s code) = 1%nat /\
  count isProcessExit (teardownEffects s code) = 0%nat /\
  count isErrorLine (teardownEffects s code) = 0%nat.
Proof.
  unfold teardownEffects.
  destruct (progressInterval s), (hasPid s); repeat split; reflexivity.
Qed.

(** The completion handler is a report followed by the teardown; reading
    the log cannot make it throw. *)
Lemma onClose_report_then_cleanup (rr : RunRequest) (startTime : Z)
    (code : option Z) (now : Z) (logContent : option string) (s : SupervisedRun) :
  onClose rr startTime code now logContent s =
  cleanup (closeCode (timedOut s) code)
    (set_effects
       (effects s ++ closeReport rr startTime (timedOut s) code now logContent)%list s).
Proof.
  destruct s as [flag lo th pi p ga q le eff].
  unfold closeReport, closeCode, diagnostics, onClose, hwhen.
  cbv [hbind hret hthrow tryCatch get modify emit
       set_effects timedOut lastOutput timeoutHandle progressInterval pid
       groupAlive exitTimers logEnded effects].
  destruct (rr_quiet rr); cbn [negb app]; destruct flag;
    try (cbn [app]; rewrite <- ?app_assoc; reflexivity).
  all: destruct code as [[|c|c]|]; cbn [app];
    try (rewrite <- ?app_assoc; reflexivity).
  all: destruct logContent as [content|]; cbn [app];
    try (rewrite <- ?app_assoc; reflexivity).
  all: destruct (errorMatch content);
    destruct (JS.includes "Unable to find a device" content);
    cbn [app]; rewrite <- ?app_assoc; reflexivity.
Qed.

(** The timeout callback sets the flag and never throws. *)
Lemma onTimeout_completes (s : SupervisedRun) :
  exists s',
    onTimeout s = (Normal tt, s') /\
    timedOut s' = true /\
    exitTimers s' = exitTimers s /\
    timeoutHandle s' = timeoutHandle s /\
    teardowns s' = teardowns s /\
    exitCalls s' = exitCalls s.
Proof.
  destruct s as [flag lo th pi p ga q le eff].
  unfold hasPid, teardowns, exitCalls. unfold_handler.
  destruct p as [z|]; cbn; try (destruct (z =? 0)%Z; cbn); try (destruct ga; cbn);
    eexists; repeat split; rewrite ?count_app; cbn; lia.
Qed.

(** The data handlers write to the log, or are refused once the log has
    been ended; they never throw. *)
Lemma onData_completes (data : string) (now : Z) (s : SupervisedRun) :
  onData data now s =
  (Normal tt,
   set_lastOutput now
     (set_effects
        (effects s ++ [if logEnded s then LogWriteAfterEnd data else LogWrite data])%list
        s)).
Proof.
  destruct s as [flag lo th pi p ga q le eff]. unfold_handler.
  destruct le; reflexivity.
Qed.

Lemma count_closeReport (rr : RunRequest) (startTime : Z) (flag : bool)
    (code : option Z) (now : Z) (logContent : option string) :
  count isLogEnd (closeReport rr startTime flag code now logContent) = 0%nat /\
  count isProcessExit (closeReport rr startTime flag code now logContent) = 0%nat.
Proof.
  unfold closeReport, diagnostics.
  destruct (rr_quiet rr), flag; try (split; reflexivity).
  all: destruct code as [[|c|c]|]; try (split; reflexivity).
  all: destruct logContent as [content|]; try (split; reflexivity).
  all: destruct (errorMatch content), (JS.includes "Unable to find a device" content);
    split; reflexivity.
Qed.

Section Runs.

Variable rr : RunRequest.
Variable startTime : Z.

(** No handler lets an exception escape, the flag is never cleared, and
    pending exit timers are never cancelled: an event other than the
    firing of an exit timer leaves the process running, with the timers it
    arms queued behind the pending ones.  The teardown body runs once for
    each timer armed, and [process.exit] is not called. *)
Lemma step_running (s : SupervisedRun) (e : event) :
  e <> ExitTimerFires ->
  exists s',
    step rr startTime s e = Running s' /\
    exitTimers s' = (exitTimers s ++ armedBy (timedOut s) e)%list /\
    (timedOut s = true -> timedOut s' = true) /\
    teardowns s' = (teardowns s + List.length (armedBy (timedOut s) e))%nat /\
    exitCalls s' = exitCalls s.
Proof.
  intros Hne. destruct e; cbn [step armedBy List.length]; try congruence.
  - (* TimeoutFires *)
    destruct (timeoutHandle s) eqn:Hh.
    + destruct (onTimeout_completes (set_timeoutHandle false s))
        as (s' & E & Hf & Hq & _ & Ht & Hx).
      unfold handle. rewrite E. exists s'.
      rewrite Hq, Ht, Hx, app_nil_r, Nat.add_0_r. auto.
    + exists s. rewrite app_nil_r, Nat.add_0_r. auto.
  - (* ProgressTick *)
    destruct (progressInterval s) as [[|]|];
      eexists; (split; [reflexivity|]); unfold teardowns, exitCalls, count; cbn;
      rewrite ?filter_app, ?length_app, app_nil_r; cbn; repeat split; auto; lia.
  - unfold handle. rewrite onData_completes.
    eexists; (split; [reflexivity|]); unfold teardowns, exitCalls, count; cbn;
      rewrite ?filter_app, ?length_app, app_nil_r; destruct (logEnded s); cbn;
      repeat split; auto; lia.
  - unfold handle. rewrite onData_completes.
    eexists; (split; [reflexivity|]); unfold teardowns, exitCalls, count; cbn;
      rewrite ?filter_app, ?length_app, app_nil_r; destruct (logEnded s); cbn;
      repeat split; auto; lia.
  - (* Close *)
    unfold handle. rewrite onClose_report_then_cleanup.
    match goal with
    | |- context [cleanup ?c ?s0] =>
        destruct (cleanup_completes c s0) as (s' & E & Hq & He & Hf & _)
    end.
    destruct (count_closeReport rr startTime (timedOut s) code now logContent)
      as (R1 & R2).
    rewrite E. exists s'. cbn [set_effects exitTimers timedOut effects] in Hq, Hf, He.
    unfold teardowns, exitCalls.
    rewrite Hq, Hf, He, !count_app, R1, R2,
      (proj1 (count_teardownEffects _ _)),
      (proj1 (proj2 (count_teardownEffects _ _))).
    repeat split; auto; lia.
  - (* SIGINT *)
    unfold handle, onSIGINT. cbv [hbind emit modify].
    match goal with
    | |- context [cleanup ?c ?s0] =>
        destruct (cleanup_completes c s0) as (s' & E & Hq & He & Hf & _)
    end.
    rewrite E. exists s'. cbn [set_effects exitTimers timedOut effects] in Hq, Hf, He.
    unfold teardowns, exitCalls.
    rewrite Hq, Hf, He, !count_app,
      (proj1 (count_teardownEffects _ _)),
      (proj1 (proj2 (count_teardownEffects _ _))).
    cbn. repeat split; auto; lia.
  - (* SIGTERM *)
    unfold handle, onSIGTERM. cbv [hbind emit modify].
    match goal with
    | |- context [cleanup ?c ?s0] =>
        destruct (cleanup_completes c s0) as (s' & E & Hq & He & Hf & _)
    end.
    rewrite E. exists s'. cbn [set_effects exitTimers timedOut effects] in Hq, Hf, He.
    unfold teardowns, exitCalls.
    rewrite Hq, Hf, He, !count_app,
      (proj1 (count_teardownEffects _ _)),
      (proj1 (proj2 (count_teardownEffects _ _))).
    cbn. repeat split; auto; lia.
  - (* GroupGone *)
    eexists; (split; [reflexivity|]); unfold teardowns, exitCalls, count; cbn;
      rewrite app_nil_r; repeat split; auto; lia.
Qed.

(** When an exit timer fires, the process exits with the code of the
    oldest pending timer. *)
Lemma step_exit (s : SupervisedRun) (code : option Z) (rest : list (option Z)) :
  exitTimers s = code :: rest ->
  exists s', step rr startTime s ExitTimerFires = Exited (exitStatus code) s'.
Proof.
  intros Hq. cbn [step]. rewrite Hq. eexists; reflexivity.
Qed.

(** The exit armed first is the one performed, whatever happens in the
    100 ms before it fires. *)
Lemma oldest_timer_decides (events : list event) :
  forall (s : SupervisedRun) (code : option Z) (rest : list (option Z)),
    exitTimers s = code :: rest ->
    In ExitTimerFires events ->
    exitCode (run rr startTime s events) = Some (exitStatus code).
Proof.
  induction events as [|e events IH]; intros s code rest Hq Hin.
  - destruct Hin.
  - cbn [run].
    destruct e;
      try (match goal with
           | |- context [step _ _ s ?e] =>
               destruct (step_running s e ltac:(discriminate)) as (s' & E & Hq' & _)
           end;
           rewrite E; rewrite Hq in Hq'; cbn [app] in Hq';
           destruct Hin as [Hin|Hin]; [discriminate Hin|];
           exact (IH s' code _ Hq' Hin)).
    destruct (step_exit s code rest Hq) as (s' & E). rewrite E. reflexivity.
Qed.

(** The flag, once set, stays set. *)
Lemma timedOut_permanent (events : list event) :
  forall s : SupervisedRun,
    timedOut s = true -> timedOut (stateOf (run rr startTime s events)) = true.
Proof.
  induction events as [|e events IH]; intros s Hf.
  - exact Hf.
  - cbn [run].
    destruct e;
      try (match goal with
           | |- context [step _ _ s ?e] =>
               destruct (step_running s e ltac:(discriminate)) as (s' & E & _ & Hf' & _)
           end;
           rewrite E; exact (IH s' (Hf' Hf))).
    cbn [step]. destruct (exitTimers s); [exact (IH s Hf)|]. exact Hf.
Qed.

(** A run that exits has called [process.exit] exactly once more than
    before it began. *)
Lemma run_exit_calls (events : list event) :
  forall (s : SupervisedRun) (c : Z),
    exitCode (run rr startTime s events) = Some c ->
    exitCalls (stateOf (run rr startTime s events)) = S (exitCalls s).
Proof.
  induction events as [|e events IH]; intros s c Hc.
  - discriminate Hc.
  - cbn [run] in *.
    destruct e;
      try (match goal with
           | |- context [step _ _ s ?e] =>
               destruct (step_running s e ltac:(discriminate))
                 as (s' & E & _ & _ & _ & Hx)
           end;
           rewrite E in *; rewrite <- Hx; exact (IH s' c Hc)).
    cbn [step] in *. destruct (exitTimers s) as [|code rest].
    + exact (IH s c Hc).
    + unfold exitCalls, count. cbn. rewrite filter_app, length_app. cbn. lia.
Qed.

Lemma run_app (pre post : list event) :
  forall s : SupervisedRun,
    run rr startTime s (pre ++ post) =
    match run rr startTime s pre with
    | Running s' => run rr startTime s' post
    | ended => ended
    end.
Proof.
  induction pre as [|e pre IH]; intros s.
  - reflexivity.
  - cbn [app run]. destruct (step rr startTime s e); auto.
Qed.

(** Events that do not start the teardown leave the process running with
    no exit pending; if the timeout timer fires among them, the flag is
    set afterwards. *)
Lemma run_before_teardown (pre : list event) :
  forall s : SupervisedRun,
    exitTimers s = [] ->
    forallb (fun e => negb (startsTeardown e)) pre = true ->
    exists s',
      run rr startTime s pre = Running s' /\
      exitTimers s' = [] /\
      (timedOut s = true -> timedOut s' = true) /\
      (timeoutHandle s = true -> In TimeoutFires pre -> timedOut s' = true).
Proof.
  induction pre as [|e pre IH]; intros s Hq Hquiet.
  - exists s. repeat split; auto; intros _ [].
  - cbn [forallb] in Hquiet. apply andb_true_iff in Hquiet.
    destruct Hquiet as [He Hquiet]. cbn [run].
    destruct e; try discriminate He.
    + (* TimeoutFires *)
      destruct (step_running s TimeoutFires ltac:(discriminate))
        as (s1 & E & Hq1 & Hf1 & _).
      rewrite E. rewrite Hq in Hq1. cbn in Hq1.
      destruct (IH s1 Hq1 Hquiet) as (s' & R & Hq' & Hf' & _).
      exists s'. repeat split; auto.
      intros Hh _. apply Hf'.
      cbn [step] in E. rewrite Hh in E.
      destruct (onTimeout_completes (set_timeoutHandle false s))
        as (s2 & E2 & Hf2 & _).
      unfold handle in E. rewrite E2 in E. inversion E. subst. exact Hf2.
    + (* ProgressTick *)
      destruct (step_running s (ProgressTick now) ltac:(discriminate))
        as (s1 & E & Hq1 & Hf1 & _).
      rewrite E. rewrite Hq in Hq1. cbn in Hq1.
      destruct (IH s1 Hq1 Hquiet) as (s' & R & Hq' & Hf' & Ht').
      exists s'. repeat split; auto.
      intros Hh [Hin|Hin]; [discriminate Hin|]. apply Ht'; auto.
      cbn [step] in E.
      destruct (progressInterval s) as [[|]|]; inversion E; subst; exact Hh.
    + (* StdoutData *)
      destruct (step_running s (StdoutData data now) ltac:(discriminate))
        as (s1 & E & Hq1 & Hf1 & _).
      rewrite E. rewrite Hq in Hq1. cbn in Hq1.
      destruct (IH s1 Hq1 Hquiet) as (s' & R & Hq' & Hf' & Ht').
      exists s'. repeat split; auto.
      intros Hh [Hin|Hin]; [discriminate Hin|]. apply Ht'; auto.
      cbn [step] in E. unfold handle in E. rewrite onData_completes in E.
      inversion E; subst; exact Hh.
    + (* StderrData *)
      destruct (step_running s (StderrData data now) ltac:(discriminate))
        as (s1 & E & Hq1 & Hf1 & _).
      rewrite E. rewrite Hq in Hq1. cbn in Hq1.
      destruct (IH s1 Hq1 Hquiet) as (s' & R & Hq' & Hf' & Ht').
      exists s'. repeat split; auto.
      intros Hh [Hin|Hin]; [discriminate Hin|]. apply Ht'; auto.
      cbn [step] in E. unfold handle in E. rewrite onData_completes in E.
      inversion E; subst; exact Hh.
    + (* ExitTimerFires: nothing is pending *)
      cbn [step]. rewrite Hq.
      destruct (IH s Hq Hquiet) as (s' & R & Hq' & Hf' & Ht').
      exists s'. repeat split; auto.
      intros Hh [Hin|Hin]; [discriminate Hin|]. auto.
    + (* GroupGone *)
      destruct (step_running s GroupGone ltac:(discriminate))
        as (s1 & E & Hq1 & Hf1 & _).
      rewrite E. rewrite Hq in Hq1. cbn in Hq1.
      destruct (IH s1 Hq1 Hquiet) as (s' & R & Hq' & Hf' & Ht').
      exists s'. repeat split; auto.
      intros Hh [Hin|Hin]; [discriminate Hin|]. apply Ht'; auto.
      inversion E; subst; exact Hh.
Qed.

(** The first event to start the teardown decides the exit code. *)
Lemma first_teardown_decides (s : SupervisedRun) (e : event) (code : option Z)
    (events : list event) :
  exitTimers s = [] ->
  armedBy (timedOut s) e = [code] ->
  In ExitTimerFires events ->
  exitCode (run rr startTime s (e :: events)) = Some (exitStatus code).
Proof.
  intros Hq Ha Hin.
  assert (Hne : e <> ExitTimerFires) by (intros ->; discriminate Ha).
  destruct (step_running s e Hne) as (s' & E & Hq' & _).
  cbn [run]. rewrite E. rewrite Hq, Ha in Hq'. cbn in Hq'.
  exact (oldest_timer_decides events s' code [] Hq' Hin).
Qed.

End Runs.

(* ------------------------------------------------------------------ *)
(** *** The timed-out flag *)

(** C2, as stated, fails: in this run the timer has set the flag and the
    completion handler reports the timeout, but the interrupt handler had
    started the teardown before it, and the wrapper exits with 130. *)
Lemma timed_out_run_exits_130 :
  timedOut (stateOf interruptedAfterTimeout) = true /\
  In (Print stderr (TimedOutReport "BUILD" (JS.Fin 300)))
     (effects (stateOf interruptedAfterTimeout)) /\
  exitCode interruptedAfterTimeout = Some 130%Z.
Proof.
  split; [reflexivity|]. split; [|reflexivity].
  vm_compute. auto 12.
Qed.

(** C2, amended.  The timeout timer sets the flag.  With the flag set, the
    completion handler reports the timeout and starts the teardown with
    code 124 whatever code the child reports, and no event clears the flag.
    The wrapper then exits with 124 unless an exit was already pending when
    the completion handler ran (an interrupt or terminate request had
    started the teardown), in which case the pending exit is the one
    performed.  In particular, in every run from [spawn] in which the timer
    fires and no interrupt or terminate request precedes the completion of
    the child, the wrapper exits with 124. *)
Theorem timed_out_overrides_exit_code (rr : RunRequest) (startTime : Z) :
  (forall s, timeoutHandle s = true ->
     exists s', step rr startTime s TimeoutFires = Running s' /\ timedOut s' = true) /\
  (forall s code now lg, timedOut s = true ->
     exists s',
       onClose rr startTime code now lg s = (Normal tt, s') /\
       In (Print stderr (TimedOutReport (JS.toUpperCase (rr_command rr)) (rr_timeout rr)))
          (effects s') /\
       exitTimers s' = (exitTimers s ++ [Some 124%Z])%list /\
       timedOut s' = true) /\
  (forall s events, timedOut s = true ->
     timedOut (stateOf (run rr startTime s events)) = true) /\
  (forall s events code now lg,
     timedOut s = true -> In ExitTimerFires events ->
     exitCode (run rr startTime s (Close code now lg :: events)) =
       Some (match exitTimers s with
             | [] => 124%Z
             | pending :: _ => exitStatus pending
             end)) /\
  (forall childPid t0 pre post code now lg,
     In TimeoutFires pre ->
     forallb (fun e => negb (startsTeardown e)) pre = true ->
     In ExitTimerFires post ->
     exitCode (run rr startTime (spawnState rr childPid t0)
                 (pre ++ Close code now lg :: post)) = Some 124%Z).
Proof.
  split; [|split; [|split; [|split]]].
  - intros s Hh. cbn [step]. rewrite Hh.
    destruct (onTimeout_completes (set_timeoutHandle false s)) as (s' & E & Hf & _).
    unfold handle. rewrite E. exists s'. auto.
  - intros s code now lg Hf.
    rewrite onClose_report_then_cleanup.
    match goal with
    | |- context [cleanup ?c ?s0] =>
        destruct (cleanup_completes c s0) as (s' & E & Hq & He & Hf' & _)
    end.
    exists s'. cbn [set_effects exitTimers timedOut effects] in Hq, He, Hf'.
    rewrite Hf in *. cbn [closeCode] in *.
    repeat split; auto.
    rewrite He. apply in_or_app. left. apply in_or_app. right.
    unfold closeReport. apply in_or_app. right. cbn. auto.
  - intros s events Hf. exact (timedOut_permanent rr startTime events s Hf).
  - intros s events code now lg Hf Hin.
    destruct (exitTimers s) as [|pending rest] eqn:Hq.
    + apply (first_teardown_decides rr startTime s _ (Some 124%Z) events Hq); auto.
      cbn. now rewrite Hf.
    + apply (oldest_timer_decides rr startTime (Close code now lg :: events)
               s pending rest Hq). now right.
  - intros childPid t0 pre post code now lg Hin Hquiet Hexit.
    rewrite run_app.
    destruct (run_before_teardown rr startTime pre (spawnState rr childPid t0)
                eq_refl Hquiet) as (s' & R & Hq & _ & Hf).
    rewrite R.
    apply (first_teardown_decides rr startTime s' _ (Some 124%Z) post Hq); auto.
    cbn. rewrite (Hf eq_refl Hin). reflexivity.
Qed.

Lemma timed_out_overrides_witness :
  exitCode (run sampleRequest 0 (spawnState sampleRequest (Some 4242%Z) 0)
              ([StdoutData "Compiling" 10; TimeoutFires; StderrData "Killed" 300000]
               ++ Close (Some 0%Z) 300010 None :: [ExitTimerFires])) = Some 124%Z.
Proof.
  exact (proj2 (proj2 (proj2 (proj2 (timed_out_overrides_exit_code sampleRequest 0))))
           (Some 4242%Z) 0%Z
           [StdoutData "Compiling" 10; TimeoutFires; StderrData "Killed" 300000]
           [ExitTimerFires] (Some 0%Z) 300010%Z None
           (or_intror (or_introl eq_refl)) eq_refl (or_introl eq_refl)).
Defined.

(* ------------------------------------------------------------------ *)
(** *** Extraction of the error line *)

Lemma stripPrefix_startsWith (p s : string) :
  JS.startsWith p s = false -> JS.stripPrefix p s = None.
Proof.
  revert s. induction p as [|a p IH]; intros [|b s]; cbn; intros H;
    try discriminate; try reflexivity.
  destruct (Ascii.eqb a b); [apply IH; exact H | reflexivity].
Qed.

(** A prefix that does not fit the beginning of [u] does not fit the
    beginning of [u ++ z] either, when it is no longer than [u]. *)
Lemma stripPrefix_longer (p u z : string) :
  (String.length p <= String.length u)%nat ->
  JS.startsWith p u = false -> JS.stripPrefix p (u ++ z) = None.
Proof.
  revert u. induction p as [|a p IH]; intros [|b u]; cbn; intros Hl H;
    try discriminate; try lia.
  destruct (Ascii.eqb a b); [apply IH; [lia | exact H] | reflexivity].
Qed.

(** The search moves on from a position where the marker does not begin. *)
Lemma errorMatch_skip (a : ascii) (u z : string) :
  (6 <= String.length (String a u))%nat ->
  JS.startsWith "error:" (String a u) = false ->
  errorMatch (String a u ++ z) = errorMatch (u ++ z).
Proof.
  intros Hl H.
  change (errorMatch (String a u ++ z))
    with (match JS.stripPrefix "error:" (String a u ++ z) with
          | Some rest => Some ("error:" ++ dotStar rest)
          | None => errorMatch (u ++ z)
          end).
  rewrite (stripPrefix_longer "error:" (String a u) z Hl H). reflexivity.
Qed.

(** The match begins at the first occurrence of the marker and runs to the
    end of that line. *)
Lemma errorMatch_first (pre rest : string) :
  JS.includes "error:" (pre ++ "error") = false ->
  errorMatch (pre ++ "error:" ++ rest) = Some ("error:" ++ dotStar rest).
Proof.
  assert (Esplit : forall x, x ++ "error:" ++ rest = (x ++ "error") ++ (":" ++ rest))
    by (intros x; rewrite append_assoc; reflexivity).
  induction pre as [|a pre IH]; intros H.
  - reflexivity.
  - cbn [append JS.includes] in H. apply orb_false_elim in H. destruct H as [H0 H].
    rewrite Esplit.
    change ((String a pre ++ "error") ++ ":" ++ rest)
      with (String a (pre ++ "error") ++ (":" ++ rest)).
    rewrite errorMatch_skip; [| cbn; rewrite length_append; cbn; lia | exact H0].
    rewrite <- Esplit. exact (IH H).
Qed.

Lemma errorMatch_none (logContent : string) :
  JS.includes "error:" logContent = false -> errorMatch logContent = None.
Proof.
  induction logContent as [|a s IH]; intros H.
  - reflexivity.
  - cbn [JS.includes] in H. apply orb_false_elim in H. destruct H as [H0 H].
    cbn [errorMatch]. rewrite (stripPrefix_startsWith _ _ H0). exact (IH H).
Qed.

(** [.*] stops where the line stops. *)
Lemma dotStar_something_failed (post : string) :
  post = "" \/ (exists r, JS.stripAny JS.LineTerminator post = Some r) ->
  dotStar (" something failed" ++ post) = " something failed".
Proof.
  intros H. cbn. repeat f_equal.
  destruct H as [-> | (r & Hr)]; [reflexivity|].
  destruct post as [|c post]; [reflexivity|].
  cbn [dotStar]. rewrite Hr. reflexivity.
Qed.

(** C9.  On a non-zero exit of the child (and no timeout) the completion
    handler searches the log for [error:]: the match is the first
    occurrence of the marker up to the end of its line, and a log without
    the marker in exactly this spelling gives no match.  When the first
    line holding the marker is [error: something failed], exactly that text
    is printed as the diagnostic, and no other.  When the log cannot be
    read the handler prints no diagnostic, does not throw, and goes on to
    the teardown with the child's code. *)
Theorem error_line_extracted :
  (forall pre rest,
     JS.includes "error:" (pre ++ "error") = false ->
     errorMatch (pre ++ "error:" ++ rest) = Some ("error:" ++ dotStar rest)) /\
  (forall logContent,
     JS.includes "error:" logContent = false -> errorMatch logContent = None) /\
  errorMatch "Error: something failed" = None /\
  (forall rr startTime s code now pre post,
     timedOut s = false -> code <> Some 0%Z ->
     JS.includes "error:" (pre ++ "error") = false ->
     post = "" \/ (exists r, JS.stripAny JS.LineTerminator post = Some r) ->
     exists s',
       onClose rr startTime code now
         (Some (pre ++ "error: something failed" ++ post)) s = (Normal tt, s') /\
       filter isErrorLine (effects s') =
         (filter isErrorLine (effects s)
          ++ [Print stderr (ErrorLine "error: something failed")])%list /\
       exitTimers s' = (exitTimers s ++ [code])%list) /\
  (forall rr startTime s code now,
     timedOut s = false -> code <> Some 0%Z ->
     exists s',
       onClose rr startTime code now None s = (Normal tt, s') /\
       filter isErrorLine (effects s') = filter isErrorLine (effects s) /\
       exitTimers s' = (exitTimers s ++ [code])%list).
Proof.
  split; [exact errorMatch_first|].
  split; [exact errorMatch_none|].
  split; [reflexivity|].
  split.
  - intros rr startTime s code now pre post Hf Hc Hpre Hpost.
    rewrite onClose_report_then_cleanup.
    match goal with
    | |- context [cleanup ?c ?s0] =>
        destruct (cleanup_completes c s0) as (s' & E & Hq & He & _)
    end.
    exists s'. cbn [set_effects exitTimers timedOut effects] in Hq, He.
    rewrite Hf in *. cbn [closeCode] in *.
    split; [exact E|]. split; [|exact Hq].
    rewrite He, !filter_app.
    assert (Ht : forall s0 c, filter isErrorLine (teardownEffects s0 c) = []).
    { intros s0 c. unfold teardownEffects.
      destruct (progressInterval s0), (hasPid s0); reflexivity. }
    rewrite Ht, app_nil_r. f_equal.
    unfold closeReport, diagnostics.
    change ("error: something failed" ++ post)
      with ("error:" ++ (" something failed" ++ post)).
    rewrite (errorMatch_first pre _ Hpre), (dotStar_something_failed post Hpost).
    destruct (rr_quiet rr);
      destruct code as [[|c|c]|]; try congruence;
      rewrite !filter_app;
      match goal with
      | |- context [if ?b then _ else _] => destruct b
      end; reflexivity.
  - intros rr startTime s code now Hf Hc.
    rewrite onClose_report_then_cleanup.
    match goal with
    | |- context [cleanup ?c ?s0] =>
        destruct (cleanup_completes c s0) as (s' & E & Hq & He & _)
    end.
    exists s'. cbn [set_effects exitTimers timedOut effects] in Hq, He.
    rewrite Hf in *. cbn [closeCode] in *.
    split; [exact E|]. split; [|exact Hq].
    rewrite He, !filter_app.
    assert (Ht : forall s0 c, filter isErrorLine (teardownEffects s0 c) = []).
    { intros s0 c. unfold teardownEffects.
      destruct (progressInterval s0), (hasPid s0); reflexivity. }
    rewrite Ht, app_nil_r.
    unfold closeReport, diagnostics.
    destruct (rr_quiet rr);
      destruct code as [[|c|c]|]; try congruence;
      cbn; rewrite app_nil_r; reflexivity.
Qed.

Lemma error_line_extracted_witness :
  errorMatch (("warning: unused variable" ++ LF) ++ "error:"
              ++ (" something failed" ++ LF ++ "** BUILD FAILED **"))
    = Some "error: something failed" /\
  exists s',
    onClose sampleRequest 0 (Some 65%Z) 9000
      (Some (("warning: unused variable" ++ LF) ++ "error: something failed"
             ++ (LF ++ "** BUILD FAILED **"))) started = (Normal tt, s') /\
    filter isErrorLine (effects s') =
      (filter isErrorLine (effects started)
       ++ [Print stderr (ErrorLine "error: something failed")])%list /\
    exitTimers s' = (exitTimers started ++ [Some 65%Z])%list.
Proof.
  split.
  - exact (proj1 error_line_extracted ("warning: unused variable" ++ LF)
             (" something failed" ++ LF ++ "** BUILD FAILED **") eq_refl).
  - exact (proj1 (proj2 (proj2 (proj2 error_line_extracted)))
             sampleRequest 0%Z started (Some 65%Z) 9000%Z
             ("warning: unused variable" ++ LF) (LF ++ "** BUILD FAILED **")
             eq_refl ltac:(discriminate) eq_refl
             (or_intror (ex_intro _ "** BUILD FAILED **" eq_refl))).
Defined.

(* ================================================================== *)
(** ** Further facts about the synchronous part *)
(* ================================================================== *)

(* ------------------------------------------------------------------ *)
(** *** Reading an option from the argument list *)

(** X1.  [getArg] returns a value exactly when the flag occurs in the
    argument list and the argument after its first occurrence exists and
    is not the empty string; that argument is the value.  Later
    occurrences of the flag are never looked at. *)
Theorem getArg_spec (args : list string) (flag v : string) :
  getArg args flag = Some v <->
  exists pre post,
    args = (pre ++ flag :: v :: post)%list /\ ~ In flag pre /\ v <> "".
Proof.
  split.
  - induction args as [|a rest IH]; intros Hg.
    + discriminate Hg.
    + rewrite getArg_cons in Hg. destruct (String.eqb a flag) eqn:Ea.
      * apply String.eqb_eq in Ea. subst a.
        destruct rest as [|w rest']; [discriminate Hg|].
        unfold JS.truthy in Hg. destruct (String.eqb w "") eqn:Ew; [discriminate Hg|].
        cbn in Hg. inversion Hg. subst w.
        exists [], rest'. repeat split; auto.
        apply String.eqb_neq. exact Ew.
      * destruct (IH Hg) as (pre & post & -> & Hpre & Hv).
        exists (a :: pre), post. repeat split; auto.
        intros [E|Hin]; [|exact (Hpre Hin)].
        apply String.eqb_neq in Ea. exact (Ea E).
  - intros (pre & post & -> & Hpre & Hv). exact (getArg_first pre post flag v Hpre Hv).
Qed.

(** X2.  A flag that is the last argument, or is followed by the empty
    string, or does not occur at all, gives no value; in the first two
    cases this holds even when the flag occurs again later with a value. *)
Theorem getArg_no_value (pre post : list string) (flag : string) :
  ~ In flag pre ->
  getArg pre flag = None /\
  getArg (pre ++ [flag]) flag = None /\
  getArg (pre ++ flag :: "" :: post) flag = None.
Proof.
  intros Hpre.
  assert (Hskip : forall tail, getArg (pre ++ tail) flag = getArg tail flag).
  { induction pre as [|a pre' IH]; intros tail; [reflexivity|].
    cbn [app]. rewrite getArg_cons.
    destruct (String.eqb a flag) eqn:Ea.
    - apply String.eqb_eq in Ea. subst a. exfalso. apply Hpre. now left.
    - apply IH. intros Hin. apply Hpre. now right. }
  repeat split.
  - rewrite <- (app_nil_r pre). rewrite Hskip. reflexivity.
  - rewrite Hskip, getArg_cons, String.eqb_refl. reflexivity.
  - rewrite Hskip, getArg_cons, String.eqb_refl. reflexivity.
Qed.

Lemma getArg_no_value_witness :
  getArg ["--scheme"; "App"] "--project" = None /\
  getArg (["--scheme"; "App"] ++ ["--project"]) "--project" = None /\
  getArg (["--scheme"; "App"] ++ "--project" :: "" :: ["--project"; "/p"]) "--project" = None.
Proof.
  apply (getArg_no_value ["--scheme"; "App"] ["--project"; "/p"] "--project").
  cbn. intros [E|[E|[]]]; discriminate E.
Defined.

Lemma getArg_spec_witness :
  getArg ["--quiet"; "--project"; "/p"; "--project"; "/q"] "--project" = Some "/p".
Proof.
  apply (proj2 (getArg_spec ["--quiet"; "--project"; "/p"; "--project"; "/q"]
                  "--project" "/p")).
  exists ["--quiet"], ["--project"; "/q"]. split; [reflexivity|]. split.
  - cbn. intros [E|[]]. discriminate E.
  - discriminate.
Defined.

(* ------------------------------------------------------------------ *)
(** *** Help, argument errors and what the script touches *)

(** X3.  With [--help] or [-h] anywhere among the arguments the script
    prints the usage text on standard output and exits with 0, whatever
    the other arguments and the state of the system are, and does nothing
    else; this is the only way the synchronous part exits with 0. *)
Theorem help_wins (args : list string) (os : World) :
  (wantsHelp args = true -> main args os = ([Print stdout Usage], Exit 0)) /\
  (forall t, main args os = (t, Exit 0) -> wantsHelp args = true).
Proof.
  split.
  - intros Hh. unfold_script. rewrite Hh. reflexivity.
  - intros t Hm. destruct (main_exit_code args os t 0%Z Hm) as [[Hh _]|[_ Hc]];
      [exact Hh | discriminate Hc].
Qed.

Lemma help_wins_witness :
  main ["--command"; "archive"; "-h"] appWorld = ([Print stdout Usage], Exit 0).
Proof.
  exact (proj1 (help_wins ["--command"; "archive"; "-h"] appWorld) eq_refl).
Defined.

(** X4.  Argument errors are checked in a fixed order - required options,
    operation, timeout, archive path - and the first one that applies is the
    one reported: one message and the usage text on standard error, exit
    code 1, and nothing else is done.  The message for an operation that
    is not allowed shows the operation in lower case; the text shown is
    the one computed here when the value given is ASCII text. *)
Theorem argument_error_report (args : list string) (os : World) :
  wantsHelp args = false ->
  (projectPath args = None \/ scheme args = None ->
     main args os = ([Print stderr MissingRequired; Print stderr Usage], Exit 1)) /\
  (forall p s, projectPath args = Some p -> scheme args = Some s ->
     (JS.arrayIncludes (command args) ALLOWED_COMMANDS = false ->
        (exists shown,
           main args os =
             ([Print stderr (InvalidCommand shown); Print stderr Usage], Exit 1)) /\
        (JS.isASCII (orElse (getArg args "--command") "build") = true ->
           main args os =
             ([Print stderr (InvalidCommand (command args)); Print stderr Usage],
              Exit 1))) /\
     (JS.arrayIncludes (command args) ALLOWED_COMMANDS = true ->
        JS.isFinite (timeout args) = false \/ JS.leZero (timeout args) = true ->
        main args os =
          ([Print stderr (InvalidTimeout (timeoutArg args)); Print stderr Usage], Exit 1)) /\
     (JS.arrayIncludes (command args) ALLOWED_COMMANDS = true ->
        JS.isFinite (timeout args) = true -> JS.leZero (timeout args) = false ->
        command args = "archive" -> archivePathArg args = None ->
        main args os = ([Print stderr ArchivePathRequired; Print stderr Usage], Exit 1))).
Proof.
  intros Hh. split.
  - intros Hmiss. unfold_script. rewrite Hh.
    destruct Hmiss as [-> | ->]; [reflexivity|].
    destruct (projectPath args); reflexivity.
  - intros p s Hp Hs. split; [|split].
    + intros Hc.
      assert (Hm : main args os =
                   ([Print stderr (InvalidCommand (command args)); Print stderr Usage],
                    Exit 1))
        by (unfold_script; rewrite Hh, Hp, Hs, Hc; reflexivity).
      split; [exists (command args); exact Hm | intros _; exact Hm].
    + intros Hc Hbad.
      assert (Hb : (negb (JS.isFinite (timeout args)) || JS.leZero (timeout args))%bool
                   = true)
        by (destruct Hbad as [-> | ->]; [reflexivity | apply orb_true_r]).
      unfold_script. rewrite Hh, Hp, Hs, Hc, Hb. reflexivity.
    + intros Hc Hf Hl Ha Hn.
      unfold_script. rewrite Hh, Hp, Hs, Hc, Hf, Hl, Hn, Ha. reflexivity.
Qed.

Lemma argument_error_report_witness :
  main ["--scheme"; "App"; "--command"; "deploy"; "--timeout"; "0"] appWorld =
    ([Print stderr MissingRequired; Print stderr Usage], Exit 1) /\
  main ["--project"; "/p"; "--scheme"; "App"; "--command"; "Deploy"; "--timeout"; "0"]
       appWorld =
    ([Print stderr (InvalidCommand "deploy"); Print stderr Usage], Exit 1) /\
  main ["--project"; "/p"; "--scheme"; "App"; "--command"; "archive"; "--timeout"; "-3"]
       appWorld =
    ([Print stderr (InvalidTimeout (Some "-3")); Print stderr Usage], Exit 1).
Proof.
  split; [|split].
  - exact (proj1 (argument_error_report
             ["--scheme"; "App"; "--command"; "deploy"; "--timeout"; "0"] appWorld eq_refl)
             (or_introl eq_refl)).
  - exact (proj2 (proj1 (proj2 (argument_error_report
             ["--project"; "/p"; "--scheme"; "App"; "--command"; "Deploy"; "--timeout"; "0"]
             appWorld eq_refl) "/p" "App" eq_refl eq_refl) eq_refl) eq_refl).
  - exact (proj1 (proj2 (proj2 (argument_error_report
             ["--project"; "/p"; "--scheme"; "App"; "--command"; "archive"; "--timeout"; "-3"]
             appWorld eq_refl) "/p" "App" eq_refl eq_refl)) eq_refl (or_intror eq_refl)).
Defined.

(** X5.  The log file is opened and the child is started only at the very
    end of a script that found nothing wrong: a run that goes on to the
    supervision ends with exactly these two effects, for the log file and
    the command of the request, in the target directory; a run that exits
    or fails earlier has neither opened the log file nor started a child. *)
Theorem spawn_is_last (args : list string) (os : World) (t : list effect)
    (r : result RunRequest) :
  main args os = (t, r) ->
  match r with
  | Done rr =>
      exists t',
        t = (t' ++ [CreateWriteStream (rr_logFile rr);
                    Spawn "sh" ["-c"; rr_buildCmd rr] (rr_projectPath rr)])%list /\
        existsb isCreateWriteStream t' = false /\ spawned t' = false
  | _ => existsb isCreateWriteStream t = false /\ spawned t = false
  end.
Proof.
  follow_script; intros E; inversion E; subst; clear E; cbn [rr_logFile rr_buildCmd rr_projectPath];
    try (split; reflexivity);
    match goal with
    | |- exists t', ?l = _ /\ _ =>
        exists (removelast (removelast l)); repeat split; reflexivity
    end.
Qed.

Lemma spawn_is_last_witness :
  exists t',
    trace (main cleanArgs appWorld) =
      (t' ++ [CreateWriteStream "/tmp/xcode-build.log";
              Spawn "sh" ["-c"; ("xcodebuild -project " ++ quoted "App.xcodeproj" ++
                                 " -scheme " ++ quoted "App" ++
                                 " -skipMacroValidation clean")%string] "/p"])%list /\
    existsb isCreateWriteStream t' = false /\ spawned t' = false.
Proof.
  eassert (E : main cleanArgs appWorld = (_, Done _)) by (vm_compute; reflexivity).
  unfold trace. rewrite E.
  exact (spawn_is_last cleanArgs appWorld _ _ E).
Defined.

(** X6.  With [--quiet] (and no request for the help text) the synchronous
    part writes nothing on standard output, however it ends. *)
Theorem quiet_setup_is_silent (args : list string) (os : World) (t : list effect)
    (r : result RunRequest) :
  quiet args = true -> wantsHelp args = false ->
  main args os = (t, r) -> existsb isStdout t = false.
Proof.
  intros Hq Hh. unfold_script. rewrite Hq, Hh. cbn [negb].
  repeat (branch; cbn [app fst snd] in * ); intros E; inversion E; subst; reflexivity.
Qed.

Lemma quiet_setup_is_silent_witness :
  existsb isStdout (trace (main missingDeviceArgs appWorld)) = false.
Proof.
  assert (Em : main missingDeviceArgs appWorld =
               (trace (main missingDeviceArgs appWorld),
                outcome (main missingDeviceArgs appWorld)))
    by (unfold trace, outcome; destruct (main missingDeviceArgs appWorld); reflexivity).
  exact (quiet_setup_is_silent missingDeviceArgs appWorld _ _ eq_refl eq_refl Em).
Defined.

(** X7.  A target directory that cannot be read is not reported as a setup
    error: the exception of the first [readdirSync] escapes.  The script
    then ends without a result, without a message of its own on standard
    error, and without a child. *)
Theorem unreadable_directory (os : World) (dir : string) :
  readdirSync os dir = None ->
  discover os dir = ([ReaddirSync dir], Uncaught) /\
  forall args t r,
    projectPath args = Some dir -> main args os = (t, r) ->
    readDirectory t = true ->
    r = Uncaught /\ existsb isStderr t = false /\ spawned t = false /\
    List.length (filter isReaddir t) = 1%nat.
Proof.
  intros Hdir. split.
  - unfold discover, readdir, perform, bind, throw. rewrite Hdir. reflexivity.
  - intros args t r Hp. unfold_script. rewrite Hp, Hdir.
    repeat (branch; cbn [app fst snd] in * ); intros E; inversion E; subst;
      cbn; intros; try discriminate; repeat split; reflexivity.
Qed.

Lemma unreadable_directory_witness :
  outcome (main cleanArgs unreadableWorld) = Uncaught /\
  existsb isStderr (trace (main cleanArgs unreadableWorld)) = false /\
  spawned (trace (main cleanArgs unreadableWorld)) = false /\
  List.length (filter isReaddir (trace (main cleanArgs unreadableWorld))) = 1%nat.
Proof.
  assert (Em : main cleanArgs unreadableWorld =
               (trace (main cleanArgs unreadableWorld),
                outcome (main cleanArgs unreadableWorld)))
    by (unfold trace, outcome; destruct (main cleanArgs unreadableWorld); reflexivity).
  exact (proj2 (unreadable_directory unreadableWorld "/p" eq_refl)
           cleanArgs _ _ eq_refl Em eq_refl).
Defined.

(** X8.  The device check is a substring test on the text the enumeration
    tool prints: any name that occurs anywhere in that text passes, a part
    of a device name as well as a word that is no device name at all. *)
Theorem device_found_by_substring (os : World) (cmd name pre post : string) (q : bool) :
  usesSimulatorDestination cmd = true ->
  simctl os = inr (pre ++ name ++ post) ->
  verifyDevice os cmd name q =
    (ExecSync simctlCommand :: (if q then [] else [Print stdout (DeviceFound name)]),
     Done tt).
Proof.
  intros Hc Hs.
  assert (Hi : JS.includes name (pre ++ name ++ post) = true)
    by (apply includes_spec; exists pre, post; reflexivity).
  unfold verifyDevice, when, perform, log, error, exit, bind, ret.
  rewrite Hc, Hs, Hi. destruct q; reflexivity.
Qed.

Lemma device_found_by_substring_witness :
  verifyDevice appWorld "build" "Shutdown" true = ([ExecSync simctlCommand], Done tt) /\
  verifyDevice appWorld "test" "iPhone 1" true = ([ExecSync simctlCommand], Done tt).
Proof.
  split.
  - exact (device_found_by_substring appWorld "build" "Shutdown"
             "-- iOS 18.2 -- iPhone 16 Pro (4C1F) (" ")" true eq_refl eq_refl).
  - exact (device_found_by_substring appWorld "test" "iPhone 1"
             "-- iOS 18.2 -- " "6 Pro (4C1F) (Shutdown)" true eq_refl eq_refl).
Defined.

(* ------------------------------------------------------------------ *)
(** *** The command line *)

(** The command line, written out. *)
Lemma buildCmd_flat (cmd buildTarget scheme_ name : string) (archivePath : option string) :
  JS.join " " (buildCmdParts cmd buildTarget scheme_ name archivePath) =
  "xcodebuild " ++ buildTarget ++ " -scheme " ++ quoted scheme_
  ++ (if usesSimulatorDestination cmd
      then " -destination " ++ quoted ("platform=iOS Simulator,name=" ++ name)
      else "")
  ++ " -skipMacroValidation "
  ++ (if String.eqb cmd "archive"
      then "-archivePath "
           ++ quoted (match archivePath with Some p => p | None => "null" end)
           ++ " archive"
      else cmd).
Proof.
  unfold buildCmdParts.
  destruct (usesSimulatorDestination cmd), (String.eqb cmd "archive");
    cbn [app JS.join]; cbn [append]; rewrite ?append_assoc; cbn [append]; reflexivity.
Qed.

Lemma main_done_fields (args : list string) (os : World) (t : list effect)
    (rr : RunRequest) :
  main args os = (t, Done rr) -> handsOn args os rr.
Proof.
  follow_script; intros E; inversion E; subst; clear E; unfold handsOn;
    cbn [rr_buildCmd rr_command rr_buildTarget rr_scheme rr_deviceName rr_archivePath
         rr_logFile rr_commandVerb rr_projectPath];
    unfold buildCmdParts;
    repeat match goal with
           | H : negb _ = false |- _ => apply negb_false_iff in H
           | H : (?a =? ?b)%string = _ |- _ => rewrite H
           | H : usesSimulatorDestination _ = _ |- _ => rewrite H
           | H : archivePathArg _ = _ |- _ => rewrite H
           end;
    (split; [reflexivity|]);
    (split; [eexists; first [left; reflexivity | right; reflexivity]|]);
    repeat split; auto;
    try (intros _; eexists; reflexivity);
    try match goal with
        | H : (true && true)%bool = false |- _ => discriminate H
        end;
    try (intros Ha;
         match goal with
         | H : (command args =? "archive")%string = false |- _ =>
             rewrite Ha in H; discriminate H
         end).
Qed.



(* ------------------------------------------------------------------ *)
(** *** Decimal numbers *)

Lemma readDigits_acc (d : Decimal.uint) :
  forall (p : positive) (n : nat),
    JS.readDigits (Z.pos p) n (NilEmpty.string_of_uint d) =
    (Z.pos (Pos.of_uint_acc d p), (n + Decimal.nb_digits d)%nat).
Proof.
  induction d; intros p n; cbn [NilEmpty.string_of_uint JS.readDigits Pos.of_uint_acc
                                Decimal.nb_digits];
    try (rewrite Nat.add_0_r; reflexivity);
    change (JS.isDigit _) with true; cbv iota;
    match goal with
    | |- JS.readDigits ?a _ _ = _ =>
        match goal with
        | |- context [Pos.of_uint_acc d ?q] =>
            replace a with (Z.pos q)
              by (match goal with
                  | |- context [JS.digitValue ?c] =>
                      let v := eval vm_compute in (JS.digitValue c) in
                      change (JS.digitValue c) with v
                  end; lia)
        end
    end;
    rewrite IHd; f_equal; lia.
Qed.

Lemma readDigits_zero (d : Decimal.uint) :
  forall n : nat,
    JS.readDigits 0 n (NilEmpty.string_of_uint d) =
    (Z.of_N (Pos.of_uint d), (n + Decimal.nb_digits d)%nat).
Proof.
  induction d; intros n; cbn [NilEmpty.string_of_uint JS.readDigits Pos.of_uint
                              Decimal.nb_digits];
    try (rewrite Nat.add_0_r; reflexivity);
    change (JS.isDigit _) with true; cbv iota.
  - change (0 * 10 + JS.digitValue "0")%Z with 0%Z. rewrite IHd. f_equal. lia.
  - change (0 * 10 + JS.digitValue "1")%Z with (Z.pos 1). rewrite readDigits_acc. f_equal. lia.
  - change (0 * 10 + JS.digitValue "2")%Z with (Z.pos 2). rewrite readDigits_acc. f_equal. lia.
  - change (0 * 10 + JS.digitValue "3")%Z with (Z.pos 3). rewrite readDigits_acc. f_equal. lia.
  - change (0 * 10 + JS.digitValue "4")%Z with (Z.pos 4). rewrite readDigits_acc. f_equal. lia.
  - change (0 * 10 + JS.digitValue "5")%Z with (Z.pos 5). rewrite readDigits_acc. f_equal. lia.
  - change (0 * 10 + JS.digitValue "6")%Z with (Z.pos 6). rewrite readDigits_acc. f_equal. lia.
  - change (0 * 10 + JS.digitValue "7")%Z with (Z.pos 7). rewrite readDigits_acc. f_equal. lia.
  - change (0 * 10 + JS.digitValue "8")%Z with (Z.pos 8). rewrite readDigits_acc. f_equal. lia.
  - change (0 * 10 + JS.digitValue "9")%Z with (Z.pos 9). rewrite readDigits_acc. f_equal. lia.
Qed.

(** A text that begins with a decimal digit has no leading white space and
    no sign. *)
Lemma parseInt_digits (d : Decimal.uint) :
  d <> Decimal.Nil ->
  JS.parseInt (NilEmpty.string_of_uint d) = JS.toNumber (Z.of_N (Pos.of_uint d)) /\
  JS.parseInt (String "-" (NilEmpty.string_of_uint d)) =
    JS.toNumber (- Z.of_N (Pos.of_uint d)).
Proof.
  intros Hd. unfold JS.parseInt.
  assert (Ht : JS.trimStart (NilEmpty.string_of_uint d) = NilEmpty.string_of_uint d)
    by (destruct d; try congruence; reflexivity).
  assert (Hm : JS.trimStart (String "-" (NilEmpty.string_of_uint d)) =
               String "-" (NilEmpty.string_of_uint d)) by reflexivity.
  rewrite Ht, Hm.
  assert (Hs : match NilEmpty.string_of_uint d with
               | String "-" rest => ((-1)%Z, rest)
               | String "+" rest => (1%Z, rest)
               | _ => (1%Z, NilEmpty.string_of_uint d)
               end = (1%Z, NilEmpty.string_of_uint d))
    by (destruct d; reflexivity).
  rewrite Hs, readDigits_zero.
  destruct d; try congruence; cbn [Decimal.nb_digits Nat.add];
    split; f_equal; lia.
Qed.

(** Up to [MAX_SAFE_INTEGER] every integer is a double, and finite. *)
Lemma toNumber_safe (z : Z) :
  (- JS.MAX_SAFE_INTEGER <= z <= JS.MAX_SAFE_INTEGER)%Z -> JS.toNumber z = JS.Fin z.
Proof.
  intros Hz.
  assert (Hb : (JS.MAX_SAFE_INTEGER < JS.overflow_threshold)%Z)
    by (vm_compute; reflexivity).
  unfold JS.toNumber, JS.roundToDouble.
  rewrite (proj2 (Z.leb_gt JS.overflow_threshold z)) by lia.
  rewrite (proj2 (Z.leb_gt z (- JS.overflow_threshold))) by lia.
  rewrite (proj2 (Z.leb_le (Z.abs z) JS.MAX_SAFE_INTEGER)) by lia.
  reflexivity.
Qed.

(** Beyond that, [parseInt] gives the nearest double: 2^53 + 1 is read as
    2^53 and 2^53 + 3 as 2^53 + 4, and 400 digits as an infinity. *)
Example parseInt_rounds :
  JS.parseInt "9007199254740993" = JS.Fin 9007199254740992 /\
  JS.parseInt "9007199254740995" = JS.Fin 9007199254740996 /\
  JS.parseInt "-9007199254740993" = JS.Fin (-9007199254740992) /\
  JS.parseInt "123456789012345678901234567890" = JS.Fin 123456789012345677877719597056 /\
  JS.parseInt (JS.String_ (10 ^ 400)) = JS.Infinity false.
Proof. repeat split; vm_compute; reflexivity. Qed.

(** X10.  Round trip: an integer printed by [String] and read back by
    [parseInt] is the integer itself, for every integer up to
    [Number.MAX_SAFE_INTEGER] in magnitude.  So the default timeout, and
    every timeout given as the decimal digits of such a positive integer,
    are taken at their value and pass the timeout check. *)
Theorem parseInt_String (z : Z) :
  (- JS.MAX_SAFE_INTEGER <= z <= JS.MAX_SAFE_INTEGER)%Z ->
  JS.parseInt (JS.String_ z) = JS.Fin z /\
  forall args,
    timeoutArg args = Some (JS.String_ z) -> (0 < z)%Z ->
    timeout args = JS.Fin z /\
    JS.isFinite (timeout args) = true /\ JS.leZero (timeout args) = false.
Proof.
  intros Hz.
  assert (Hp : JS.parseInt (JS.String_ z) = JS.Fin z).
  { rewrite <- (toNumber_safe z Hz).
    unfold JS.String_. destruct z as [|p|p]; cbn [Z.to_int NilZero.string_of_int].
    - reflexivity.
    - unfold NilZero.string_of_uint.
      pose proof (DecimalPos.Unsigned.to_uint_nonnil p) as Hn.
      destruct (Pos.to_uint p) eqn:E; try congruence;
        rewrite <- E in *;
        rewrite (proj1 (parseInt_digits (Pos.to_uint p) Hn)),
                DecimalPos.Unsigned.of_to;
        reflexivity.
    - unfold NilZero.string_of_uint.
      pose proof (DecimalPos.Unsigned.to_uint_nonnil p) as Hn.
      destruct (Pos.to_uint p) eqn:E; try congruence;
        rewrite <- E in *;
        rewrite (proj2 (parseInt_digits (Pos.to_uint p) Hn)),
                DecimalPos.Unsigned.of_to;
        reflexivity. }
  split; [exact Hp|].
  intros args Ha Hpos. unfold timeout. rewrite Ha, Hp. cbn.
  repeat split. apply Z.leb_gt. exact Hpos.
Qed.

Lemma parseInt_String_witness :
  JS.parseInt (JS.String_ 45) = JS.Fin 45 /\
  timeout ["--project"; "/p"; "--timeout"; "45"] = JS.Fin 45.
Proof.
  assert (Hb : (- JS.MAX_SAFE_INTEGER <= 45 <= JS.MAX_SAFE_INTEGER)%Z)
    by (split; vm_compute; discriminate).
  split.
  - exact (proj1 (parseInt_String 45 Hb)).
  - exact (proj1 (proj2 (parseInt_String 45 Hb)
                    ["--project"; "/p"; "--timeout"; "45"] eq_refl eq_refl)).
Defined.


(* ================================================================== *)
(** ** Further facts about the event-driven part *)
(* ================================================================== *)

(* ------------------------------------------------------------------ *)
(** *** The handlers as explicit updates of the state *)

Lemma cleanup_explicit (code : option Z) (s : SupervisedRun) :
  cleanup code s = (Normal tt, afterCleanup code s).
Proof.
  destruct s as [flag lo th pi p ga q le eff].
  unfold afterCleanup, teardownEffects, hasPid. unfold_handler.
  destruct pi as [b|]; destruct p as [z|]; cbn;
    try (destruct (z =? 0)%Z; cbn); try (destruct ga; cbn);
    rewrite <- ?app_assoc; reflexivity.
Qed.

Lemma onTimeout_explicit (s : SupervisedRun) :
  onTimeout s = (Normal tt, afterTimeout s).
Proof.
  destruct s as [flag lo th pi p ga q le eff].
  unfold afterTimeout, timeoutEffects, hasPid. unfold_handler.
  destruct p as [z|]; cbn;
    try (destruct (z =? 0)%Z; cbn); try (destruct ga; cbn);
    rewrite <- ?app_assoc, ?app_nil_r; reflexivity.
Qed.

Lemma event_is_exit (e : event) : {e = ExitTimerFires} + {e <> ExitTimerFires}.
Proof. destruct e; (left; reflexivity) || (right; discriminate). Qed.

Section Explicit.

Variable rr : RunRequest.
Variable startTime : Z.

Local Open Scope list_scope.

(** Every event other than the firing of an exit timer leaves the process
    running, in the state given by [next]; an exit timer that fires with
    nothing pending does nothing, and otherwise ends the process with the
    oldest pending code. *)
Lemma step_explicit (s : SupervisedRun) (e : event) :
  (e <> ExitTimerFires -> step rr startTime s e = Running (next rr startTime s e)) /\
  (exitTimers s = [] -> step rr startTime s ExitTimerFires = Running s) /\
  (forall code rest, exitTimers s = code :: rest ->
     step rr startTime s ExitTimerFires = Exited (exitStatus code) (exited code rest s)).
Proof.
  split; [|split].
  - intros Hne. destruct e; cbn [step next]; try congruence.
    + destruct (timeoutHandle s); [|reflexivity].
      unfold handle. rewrite onTimeout_explicit. reflexivity.
    + destruct (progressInterval s) as [[|]|]; reflexivity.
    + unfold handle. rewrite onData_completes. reflexivity.
    + unfold handle. rewrite onData_completes. reflexivity.
    + unfold handle. rewrite onClose_report_then_cleanup, cleanup_explicit. reflexivity.
    + unfold handle, onSIGINT. cbv [hbind emit modify]. rewrite cleanup_explicit.
      reflexivity.
    + unfold handle, onSIGTERM. cbv [hbind emit modify]. rewrite cleanup_explicit.
      reflexivity.
  - intros Hq. cbn [step]. rewrite Hq. reflexivity.
  - intros code rest Hq. cbn [step]. rewrite Hq. reflexivity.
Qed.

(** A property kept by the events of a run is kept by the run. *)
Lemma run_invariant_on (E : event -> Prop) (I : SupervisedRun -> Prop) :
  (forall s e, E e -> I s -> e <> ExitTimerFires -> I (next rr startTime s e)) ->
  (forall s code rest, I s -> exitTimers s = code :: rest -> I (exited code rest s)) ->
  forall events s, Forall E events -> I s -> I (stateOf (run rr startTime s events)).
Proof.
  intros Hnext Hexit. induction events as [|e events IH]; intros s HE Hs.
  - exact Hs.
  - inversion HE as [|? ? He HE']; subst. cbn [run].
    destruct (event_is_exit e) as [-> | Hne].
    + destruct (exitTimers s) as [|code rest] eqn:Hq.
      * rewrite (proj1 (proj2 (step_explicit s ExitTimerFires)) Hq). apply IH; auto.
      * rewrite (proj2 (proj2 (step_explicit s ExitTimerFires)) code rest Hq).
        cbn [stateOf]. exact (Hexit s code rest Hs Hq).
    + rewrite (proj1 (step_explicit s e) Hne). apply IH; auto.
Qed.

(** A run that exits does so from a state that the events before kept in
    [J]. *)
Lemma run_exits_from (E : event -> Prop) (J : SupervisedRun -> Prop) :
  (forall s e, E e -> J s -> e <> ExitTimerFires -> J (next rr startTime s e)) ->
  forall events s c,
    Forall E events -> J s ->
    exitCode (run rr startTime s events) = Some c ->
    exists s1 code rest,
      J s1 /\ exitTimers s1 = code :: rest /\
      run rr startTime s events = Exited (exitStatus code) (exited code rest s1) /\
      c = exitStatus code.
Proof.
  intros Hnext. induction events as [|e events IH]; intros s c HE Hs Hc.
  - discriminate Hc.
  - inversion HE as [|? ? He HE']; subst. cbn [run] in *.
    destruct (event_is_exit e) as [-> | Hne].
    + destruct (exitTimers s) as [|code rest] eqn:Hq.
      * rewrite (proj1 (proj2 (step_explicit s ExitTimerFires)) Hq) in *.
        exact (IH s c HE' Hs Hc).
      * rewrite (proj2 (proj2 (step_explicit s ExitTimerFires)) code rest Hq) in *.
        cbn in Hc. inversion Hc. exists s, code, rest. auto.
    + rewrite (proj1 (step_explicit s e) Hne) in *.
      exact (IH _ c HE' (Hnext s e He Hs Hne) Hc).
Qed.

Lemma Forall_all (events : list event) : Forall (fun _ => True) events.
Proof. apply Forall_forall. auto. Qed.

(** The handlers of the script catch what they throw - a kill that
    fails, a log that cannot be read: a run in which only the events it
    listens to occur never ends in an uncaught exception. *)
Lemma handlers_catch (events : list event) (s : SupervisedRun) :
  crashed (run rr startTime s events) = false.
Proof.
  revert s. induction events as [|e events IH]; intros s.
  - reflexivity.
  - cbn [run].
    destruct (event_is_exit e) as [-> | Hne].
    + destruct (exitTimers s) as [|code rest] eqn:Hq.
      * rewrite (proj1 (proj2 (step_explicit s ExitTimerFires)) Hq). apply IH.
      * rewrite (proj2 (proj2 (step_explicit s ExitTimerFires)) code rest Hq).
        reflexivity.
    + rewrite (proj1 (step_explicit s e) Hne). apply IH.
Qed.

Lemma supervise_listened (events : list event) :
  forall s : SupervisedRun,
    supervise rr startTime s (map Listened events) = run rr startTime s events.
Proof.
  induction events as [|e events IH]; intros s; cbn [map supervise run deliver].
  - reflexivity.
  - destruct (step rr startTime s e); auto.
Qed.

Lemma supervise_app (pre post : list delivery) :
  forall s : SupervisedRun,
    supervise rr startTime s (pre ++ post) =
    match supervise rr startTime s pre with
    | Running s' => supervise rr startTime s' post
    | ended => ended
    end.
Proof.
  induction pre as [|d pre IH]; intros s.
  - reflexivity.
  - cbn [app supervise]. destruct (deliver rr startTime s d); auto.
Qed.

(** Output of the child, progress ticks and the disappearance of the group
    leave no trace of a kill, of an exit timer or of an exit. *)
Lemma untouched_before_teardown (pre : list event) (s : SupervisedRun) :
  forallb (fun e => negb (startsTeardown e)) pre = true ->
  ~ In TimeoutFires pre ->
  existsb isKill (effects s) = false -> exitTimers s = [] -> exitCalls s = 0%nat ->
  existsb isKill (effects (stateOf (run rr startTime s pre))) = false /\
  exitTimers (stateOf (run rr startTime s pre)) = [] /\
  exitCalls (stateOf (run rr startTime s pre)) = 0%nat.
Proof.
  intros Hquiet Hno Hk Hq Hx.
  apply (run_invariant_on
           (fun e => startsTeardown e = false /\ e <> TimeoutFires)
           (fun s' => existsb isKill (effects s') = false /\
                      exitTimers s' = [] /\ exitCalls s' = 0%nat)).
  - intros s0 e (He & Hne) (Hk0 & Hq0 & Hx0) _.
    destruct e; try discriminate He; try congruence; cbn [next].
    + destruct (progressInterval s0) as [[|]|]; auto.
      unfold exitCalls in *. cbn [effects exitTimers set_effects].
      rewrite existsb_app, count_app, Hk0, Hx0. auto.
    + unfold exitCalls in *. cbn [effects exitTimers set_effects set_lastOutput].
      rewrite existsb_app, count_app, Hk0, Hx0. destruct (logEnded s0); auto.
    + unfold exitCalls in *. cbn [effects exitTimers set_effects set_lastOutput].
      rewrite existsb_app, count_app, Hk0, Hx0. destruct (logEnded s0); auto.
    + auto.
    + auto.
  - intros s0 code rest (_ & Hq0 & _) Hq1. congruence.
  - apply Forall_forall. intros e Hin. split.
    + rewrite forallb_forall in Hquiet. apply negb_true_iff. exact (Hquiet e Hin).
    + intros ->. exact (Hno Hin).
  - auto.
Qed.

(** X11.  What makes the wrapper crash.  Its own handlers never let an
    exception escape, so a run in which only the events it listens to occur
    never crashes.  An ['error'] event of the log stream or of the child,
    for which the script has no listener, ends the wrapper with an
    uncaught exception if it arrives while the wrapper is running, in the
    state it is in: no handler runs, nothing is torn down.  When it
    arrives before the timeout and before any event that starts the
    teardown (a log file that cannot be opened, say), the wrapper dies
    without having sent a signal to the child or its group and without
    having called [process.exit]: the child is left running. *)
Theorem crash_only_on_error_event :
  (forall events s,
     supervise rr startTime s (map Listened events) = run rr startTime s events /\
     crashed (run rr startTime s events) = false) /\
  (forall pre from err post s,
     supervise rr startTime s (map Listened pre ++ ErrorEvent from err :: post) =
       match run rr startTime s pre with
       | Running s' => Crashed err s'
       | ended => ended
       end) /\
  (forall childPid t0 pre from err post,
     forallb (fun e => negb (startsTeardown e)) pre = true ->
     ~ In TimeoutFires pre ->
     exists s',
       supervise rr startTime (spawnState rr childPid t0)
         (map Listened pre ++ ErrorEvent from err :: post) = Crashed err s' /\
       existsb isKill (effects s') = false /\
       exitTimers s' = [] /\
       exitCalls s' = 0%nat).
Proof.
  assert (Herr : forall pre from err post s,
            supervise rr startTime s (map Listened pre ++ ErrorEvent from err :: post) =
            match run rr startTime s pre with
            | Running s' => Crashed err s'
            | ended => ended
            end).
  { intros pre from err post s. rewrite supervise_app, supervise_listened.
    destruct (run rr startTime s pre); reflexivity. }
  split; [|split].
  - intros events s. split; [apply supervise_listened | apply handlers_catch].
  - exact Herr.
  - intros childPid t0 pre from err post Hquiet Hno.
    rewrite Herr.
    destruct (run_before_teardown rr startTime pre (spawnState rr childPid t0)
                eq_refl Hquiet) as (s' & R & _).
    destruct (untouched_before_teardown pre (spawnState rr childPid t0) Hquiet Hno
                eq_refl eq_refl eq_refl) as (Hk & Hq & Hx).
    rewrite R in *. exists s'. auto.
Qed.

(** X12.  When the wrapper exits.  It exits exactly when an exit timer
    fires after the teardown has begun, that is, after a completion, an
    interrupt or a terminate request; the firing of the timeout timer alone
    never ends it. *)
Theorem exits_exactly_when (events : list event) :
  forall s : SupervisedRun,
    hasExited (run rr startTime s events) =
    willExit (match exitTimers s with [] => false | _ => true end) events.
Proof.
  induction events as [|e events IH]; intros s.
  - reflexivity.
  - cbn [run].
    destruct (event_is_exit e) as [-> | Hne].
    + destruct (exitTimers s) as [|code rest] eqn:Hq.
      * rewrite (proj1 (proj2 (step_explicit s ExitTimerFires)) Hq).
        cbn [willExit]. rewrite IH, Hq. reflexivity.
      * rewrite (proj2 (proj2 (step_explicit s ExitTimerFires)) code rest Hq).
        reflexivity.
    + rewrite (proj1 (step_explicit s e) Hne), IH.
      assert (Hp : match exitTimers (next rr startTime s e) with
                   | [] => false | _ => true end =
                   (match exitTimers s with [] => false | _ => true end
                    || startsTeardown e)%bool).
      { destruct e; try congruence; cbn; try (destruct (timeoutHandle s));
          try (destruct (progressInterval s) as [[|]|]); cbn;
          destruct (exitTimers s); reflexivity. }
      rewrite Hp. destruct e; try congruence; reflexivity.
Qed.

(** X13.  In the supervised part the wrapper exits only with 124, 130,
    143, or with a code that the child reported in a completion event (0
    when the child reported none): it never invents another code. *)
Theorem exit_code_range (events : list event) (s : SupervisedRun) (c : Z) :
  exitTimers s = [] ->
  exitCode (run rr startTime s events) = Some c ->
  c = 124%Z \/ c = 130%Z \/ c = 143%Z \/
  exists code now logContent,
    In (Close code now logContent) events /\ c = exitStatus code.
Proof.
  intros Hq Hc.
  pose (Good := fun k : option Z =>
          k = Some 124%Z \/ k = Some 130%Z \/ k = Some 143%Z \/
          exists now logContent, In (Close k now logContent) events).
  destruct (run_exits_from (fun e => In e events)
              (fun s => forall k, In k (exitTimers s) -> Good k)) with
    (events := events) (s := s) (c := c) as (s1 & code & rest & HJ & Hq1 & _ & ->).
  - intros s0 e He HJ Hne k Hk.
    destruct e; try congruence; cbn [next] in Hk.
    + destruct (timeoutHandle s0); exact (HJ k Hk).
    + destruct (progressInterval s0) as [[|]|]; exact (HJ k Hk).
    + exact (HJ k Hk).
    + exact (HJ k Hk).
    + cbn in Hk. apply in_app_or in Hk. destruct Hk as [Hk|[<-|[]]]; [exact (HJ k Hk)|].
      unfold closeCode. destruct (timedOut s0).
      * left. reflexivity.
      * right. right. right. exists now, logContent. exact He.
    + cbn in Hk. apply in_app_or in Hk. destruct Hk as [Hk|[<-|[]]]; [exact (HJ k Hk)|].
      right. left. reflexivity.
    + cbn in Hk. apply in_app_or in Hk. destruct Hk as [Hk|[<-|[]]]; [exact (HJ k Hk)|].
      right. right. left. reflexivity.
    + exact (HJ k Hk).
  - apply Forall_forall. auto.
  - rewrite Hq. intros k [].
  - exact Hc.
  - destruct (HJ code) as [->|[->|[->|(now & lg & Hin)]]]; auto.
    + rewrite Hq1. now left.
    + right. right. right. exists code, now, lg. auto.
Qed.

(** X14.  The process group is signalled before the wrapper exits.  In a
    run that starts with a child process id and no exit pending and ends
    in an exit, the call of [process.exit] is the last effect and a kill
    of the whole group was attempted before it - after a successful
    completion of the child as well. *)
Theorem kill_before_exit (events : list event) (s : SupervisedRun) (c : Z) :
  exitTimers s = [] -> hasPid s = true ->
  exitCode (run rr startTime s events) = Some c ->
  exists before delivered after code,
    effects (stateOf (run rr startTime s events)) =
      effects s ++ before ++ KillGroup delivered :: after ++ [ProcessExit code] /\
    c = exitStatus code.
Proof.
  intros Hq Hp Hc.
  pose (J := fun s' : SupervisedRun =>
          hasPid s' = true /\
          exists new, effects s' = effects s ++ new /\
            (exitTimers s' <> [] ->
             exists before delivered after, new = before ++ KillGroup delivered :: after)).
  destruct (run_exits_from (fun _ => True) J) with
    (events := events) (s := s) (c := c)
    as (s1 & code & rest & (Hp1 & new & He1 & Hk1) & Hq1 & Hrun & ->).
  - intros s0 e _ (Hp0 & new & He0 & Hk0) Hne.
    assert (Hkeep : forall (added : list effect) (q' : list (option Z)),
              (q' <> [] -> exitTimers s0 <> []) ->
              exists new', (effects s0 ++ added) = effects s ++ new' /\
                (q' <> [] ->
                 exists before delivered after,
                   new' = before ++ KillGroup delivered :: after)).
    { intros added q' Hq'. exists (new ++ added).
      rewrite He0, app_assoc. split; [reflexivity|].
      intros Hne'. destruct (Hk0 (Hq' Hne')) as (before & d & after & ->).
      exists before, d, (after ++ added).
      rewrite <- app_assoc. reflexivity. }
    assert (Htear : forall report code0,
              exists new',
                (effects s0 ++ report) ++
                teardownEffects (set_effects (effects s0 ++ report) s0) code0 =
                effects s ++ new' /\
                exists before delivered after,
                  new' = before ++ KillGroup delivered :: after).
    { intros report code0. unfold teardownEffects.
      change (hasPid (set_effects (effects s0 ++ report) s0)) with (hasPid s0).
      rewrite Hp0. cbn [progressInterval groupAlive set_effects].
      exists (new ++ report ++ [ClearTimeout]
              ++ match progressInterval s0 with Some _ => [ClearInterval] | None => [] end
              ++ [KillGroup (groupAlive s0)] ++ [LogEnd; SetExitTimer code0]).
      split; [rewrite He0, <- !app_assoc; reflexivity|].
      exists (new ++ report ++ [ClearTimeout]
              ++ match progressInterval s0 with Some _ => [ClearInterval] | None => [] end),
        (groupAlive s0), [LogEnd; SetExitTimer code0].
      rewrite <- !app_assoc. reflexivity. }
    unfold J. destruct e; try congruence; cbn [next].
    + (* TimeoutFires *)
      destruct (timeoutHandle s0).
      * split; [exact Hp0|]. cbn.
        apply (Hkeep (timeoutEffects (set_timeoutHandle false s0))); auto.
      * split; [exact Hp0|]. exists new. auto.
    + destruct (progressInterval s0) as [[|]|]; (split; [exact Hp0|]).
      * cbn. apply Hkeep; auto.
      * exists new. auto.
      * exists new. auto.
    + split; [exact Hp0|]. cbn. apply Hkeep; auto.
    + split; [exact Hp0|]. cbn. apply Hkeep; auto.
    + split; [exact Hp0|]. cbn [afterCleanup effects exitTimers set_effects].
      destruct (Htear (closeReport rr startTime (timedOut s0) code now logContent)
                  (closeCode (timedOut s0) code)) as (new' & E' & Hk').
      exists new'. split; [exact E'|]. intros _. exact Hk'.
    + split; [exact Hp0|]. cbn [afterCleanup effects exitTimers set_effects].
      destruct (Htear [Print stdout (Cancelled (JS.toUpperCase (rr_command rr)))]
                  (Some 130%Z)) as (new' & E' & Hk').
      exists new'. split; [exact E'|]. intros _. exact Hk'.
    + split; [exact Hp0|]. cbn [afterCleanup effects exitTimers set_effects].
      destruct (Htear [Print stdout (Terminated (JS.toUpperCase (rr_command rr)))]
                  (Some 143%Z)) as (new' & E' & Hk').
      exists new'. split; [exact E'|]. intros _. exact Hk'.
    + split; [exact Hp0|]. exists new. cbn. split; [exact He0|]. exact Hk0.
  - apply Forall_all.
  - split; [exact Hp|]. exists []. rewrite app_nil_r. split; [reflexivity|].
    intros Hne. congruence.
  - exact Hc.
  - rewrite Hrun. cbn [stateOf exited effects set_effects set_exitTimers].
    destruct Hk1 as (before & d & after & ->); [rewrite Hq1; discriminate|].
    exists before, d, after, code. rewrite He1, <- !app_assoc. cbn [app].
    repeat split; auto.
Qed.

Lemma next_control (s1 s2 : SupervisedRun) (e : event) :
  control s1 = control s2 ->
  control (next rr startTime s1 e) = control (next rr startTime s2 e).
Proof.
  destruct s1 as [f1 l1 h1 p1 i1 g1 q1 le1 e1], s2 as [f2 l2 h2 p2 i2 g2 q2 le2 e2].
  unfold control. cbn. intros E. inversion E. subst.
  destruct e; cbn; try reflexivity.
  - destruct h2; reflexivity.
  - destruct p2 as [[|]|]; reflexivity.
Qed.

Lemma cosmetic_control (s : SupervisedRun) (e : event) :
  cosmetic e = true -> control (next rr startTime s e) = control s.
Proof.
  destruct e; try discriminate; intros _; cbn [next]; try reflexivity.
  destruct (progressInterval s) as [[|]|]; reflexivity.
Qed.


Lemma logWrites_app (t u : list effect) :
  logWrites (t ++ u) = logWrites t ++ logWrites u.
Proof. unfold logWrites. apply flat_map_app. Qed.

Lemma logWrites_teardown (s : SupervisedRun) (code : option Z) :
  logWrites (teardownEffects s code) = [].
Proof.
  unfold teardownEffects. destruct (progressInterval s), (hasPid s); reflexivity.
Qed.

Lemma logWrites_closeReport (flag : bool) (code : option Z) (now : Z)
    (logContent : option string) :
  logWrites (closeReport rr startTime flag code now logContent) = [].
Proof.
  unfold closeReport, diagnostics.
  destruct (rr_quiet rr), flag; try reflexivity.
  all: destruct code as [[|c|c]|]; try reflexivity.
  all: destruct logContent as [content|]; try reflexivity.
  all: destruct (errorMatch content), (JS.includes "Unable to find a device" content);
    reflexivity.
Qed.

Lemma logWrites_next (s : SupervisedRun) (e : event) :
  logWrites (effects (next rr startTime s e)) =
  logWrites (effects s) ++ (if logEnded s then [] else chunks [e]).
Proof.
  assert (Hnil : forall l : list string, l ++ (if logEnded s then [] else []) = l)
    by (intros l; destruct (logEnded s); apply app_nil_r).
  destruct e; cbn [next chunks flat_map app].
  - destruct (timeoutHandle s); [|now rewrite Hnil].
    cbn. rewrite logWrites_app, Hnil. unfold timeoutEffects.
    destruct (hasPid _); [destruct (groupAlive _)|]; cbn; now rewrite app_nil_r.
  - destruct (progressInterval s) as [[|]|]; cbn;
      rewrite ?logWrites_app; cbn; now rewrite ?app_nil_r, Hnil.
  - cbn. rewrite logWrites_app. destruct (logEnded s); reflexivity.
  - cbn. rewrite logWrites_app. destruct (logEnded s); reflexivity.
  - cbn [afterCleanup effects set_effects].
    rewrite !logWrites_app, logWrites_teardown, logWrites_closeReport.
    now rewrite !app_nil_r, Hnil.
  - cbn [afterCleanup effects set_effects].
    rewrite !logWrites_app, logWrites_teardown. cbn. now rewrite !app_nil_r, Hnil.
  - cbn [afterCleanup effects set_effects].
    rewrite !logWrites_app, logWrites_teardown. cbn. now rewrite !app_nil_r, Hnil.
  - now rewrite Hnil.
  - cbn. now rewrite Hnil.
Qed.

(** The log is ended by the teardown, and by nothing else. *)
Lemma logEnded_next (s : SupervisedRun) (e : event) :
  logEnded (next rr startTime s e) = (logEnded s || startsTeardown e)%bool.
Proof.
  destruct e; cbn [next startsTeardown]; rewrite ?orb_false_r, ?orb_true_r;
    try reflexivity.
  - destruct (timeoutHandle s); reflexivity.
  - destruct (progressInterval s) as [[|]|]; reflexivity.
Qed.

(** Once the log has been ended nothing is written to it. *)
Lemma log_closed (events : list event) (s : SupervisedRun) :
  logEnded s = true ->
  logWrites (effects (stateOf (run rr startTime s events))) = logWrites (effects s).
Proof.
  intros Hle.
  apply (run_invariant_on (fun _ => True)
           (fun s' => logEnded s' = true /\
                      logWrites (effects s') = logWrites (effects s))).
  - intros s0 e _ (Hl0 & Hw0) _. split.
    + rewrite logEnded_next, Hl0. reflexivity.
    + rewrite logWrites_next, Hl0, app_nil_r. exact Hw0.
  - intros s0 code rest (Hl0 & Hw0) _. split; [exact Hl0|].
    unfold exited. cbn [effects set_effects set_exitTimers].
    rewrite logWrites_app. cbn. rewrite app_nil_r. exact Hw0.
  - apply Forall_all.
  - auto.
Qed.

(** X16.  The log receives the output of the child up to the teardown and
    nothing else: the chunks written to the log stream during a run are
    the data of the standard output and standard error events that arrive
    before the first event that starts the teardown, as one sequence in
    the order of arrival.  The teardown ends the stream, and output of the
    child that arrives after that is refused: once the log has been ended,
    no event adds anything to it. *)
Theorem log_is_the_output (events : list event) :
  forall s : SupervisedRun,
    (logEnded s = true ->
       logWrites (effects (stateOf (run rr startTime s events))) =
         logWrites (effects s)) /\
    (logEnded s = false -> exitTimers s = [] ->
       logWrites (effects (stateOf (run rr startTime s events))) =
         logWrites (effects s) ++ chunks (beforeTeardown events)).
Proof.
  intros s. split; [exact (log_closed events s)|].
  revert s. induction events as [|e events IH]; intros s Hle Hq.
  - cbn. now rewrite app_nil_r.
  - cbn [run beforeTeardown].
    destruct (event_is_exit e) as [-> | Hne].
    + rewrite (proj1 (proj2 (step_explicit s ExitTimerFires)) Hq).
      cbn [startsTeardown]. rewrite (IH s Hle Hq). reflexivity.
    + rewrite (proj1 (step_explicit s e) Hne).
      destruct (startsTeardown e) eqn:He.
      * rewrite log_closed by (rewrite logEnded_next, He; apply orb_true_r).
        rewrite logWrites_next, Hle.
        destruct e; try discriminate He; reflexivity.
      * rewrite IH.
        -- rewrite logWrites_next, Hle, <- app_assoc. f_equal.
           unfold chunks. cbn [flat_map]. now rewrite app_nil_r.
        -- rewrite logEnded_next, Hle, He. reflexivity.
        -- destruct e; try discriminate He; try congruence; cbn [next];
             try (destruct (timeoutHandle s)); try (destruct (progressInterval s) as [[|]|]);
             exact Hq.
Qed.

(** X17.  A timeout timer that fires late does nothing.  Once the timer
    has been cleared (the teardown clears it) no event changes the
    timed-out flag; so in a run from [spawn] in which the completion of the
    child, an interrupt or a terminate request comes before the timer
    fires, the flag is never set, whatever follows. *)
Theorem late_timeout_is_harmless :
  (forall events s,
     timeoutHandle s = false ->
     timedOut (stateOf (run rr startTime s events)) = timedOut s) /\
  (forall childPid t0 pre e post,
     ~ In TimeoutFires pre ->
     forallb (fun e => negb (startsTeardown e)) pre = true ->
     startsTeardown e = true ->
     timedOut (stateOf (run rr startTime (spawnState rr childPid t0)
                          (pre ++ e :: post))) = false).
Proof.
  assert (Hlate : forall events s,
            timeoutHandle s = false ->
            timedOut (stateOf (run rr startTime s events)) = timedOut s).
  { intros events s Hh.
    apply (run_invariant_on (fun _ => True)
             (fun s' => timeoutHandle s' = false /\ timedOut s' = timedOut s)).
    - intros s0 e _ (Hh0 & Hf0) _.
      destruct e; cbn [next]; try rewrite Hh0; auto.
      destruct (progressInterval s0) as [[|]|]; auto.
    - intros s0 code rest (Hh0 & Hf0) _. auto.
    - apply Forall_all.
    - auto. }
  split; [exact Hlate|].
  intros childPid t0 pre e post Hno Hquiet He.
  rewrite run_app.
  destruct (run_before_teardown rr startTime pre (spawnState rr childPid t0)
              eq_refl Hquiet) as (s1 & R & Hq1 & _).
  assert (Hf1 : timedOut s1 = false).
  { change s1 with (stateOf (Running s1)). rewrite <- R.
    apply (run_invariant_on (fun e => e <> TimeoutFires)
             (fun s' => timedOut s' = false)).
    - intros s0 e0 Hne Hf0 _.
      destruct e0; cbn [next]; try congruence; auto.
      destruct (progressInterval s0) as [[|]|]; auto.
    - intros s0 code rest Hf0 _. exact Hf0.
    - apply Forall_forall. intros x Hx ->. exact (Hno Hx).
    - reflexivity. }
  rewrite R. cbn [run].
  rewrite (proj1 (step_explicit s1 e)) by (intros ->; discriminate He).
  rewrite Hlate.
  - destruct e; try discriminate He; exact Hf1.
  - destruct e; try discriminate He; reflexivity.
Qed.

Lemma progress_teardown (s : SupervisedRun) (code : option Z) :
  count isProgress (teardownEffects s code) = 0%nat.
Proof.
  unfold teardownEffects. destruct (progressInterval s), (hasPid s); reflexivity.
Qed.

Lemma progress_closeReport (flag : bool) (code : option Z) (now : Z)
    (logContent : option string) :
  count isProgress (closeReport rr startTime flag code now logContent) = 0%nat.
Proof.
  unfold closeReport, diagnostics.
  destruct (rr_quiet rr), flag; try reflexivity.
  all: destruct code as [[|c|c]|]; try reflexivity.
  all: destruct logContent as [content|]; try reflexivity.
  all: destruct (errorMatch content), (JS.includes "Unable to find a device" content);
    reflexivity.
Qed.

(** A progress line is printed by a tick of an interval that is active,
    and by nothing else. *)
Lemma progressLines_next (s : SupervisedRun) (e : event) :
  progressLines (next rr startTime s e) =
  (progressLines s +
   match e, progressInterval s with
   | ProgressTick _, Some true => 1
   | _, _ => 0
   end)%nat.
Proof.
  unfold progressLines.
  destruct e; cbn [next].
  - destruct (timeoutHandle s); [|now rewrite Nat.add_0_r].
    cbn [afterTimeout effects set_timeoutHandle]. rewrite count_app.
    unfold timeoutEffects. destruct (hasPid _); [destruct (groupAlive _)|]; reflexivity.
  - destruct (progressInterval s) as [[|]|]; cbn [effects set_effects];
      rewrite ?count_app; cbn; lia.
  - cbn [effects set_effects set_lastOutput]. rewrite count_app.
    destruct (logEnded s); cbn; lia.
  - cbn [effects set_effects set_lastOutput]. rewrite count_app.
    destruct (logEnded s); cbn; lia.
  - cbn [afterCleanup effects set_effects].
    rewrite !count_app, progress_teardown, progress_closeReport.
    destruct (progressInterval s) as [[|]|]; lia.
  - cbn [afterCleanup effects set_effects].
    rewrite !count_app, progress_teardown. cbn.
    destruct (progressInterval s) as [[|]|]; lia.
  - cbn [afterCleanup effects set_effects].
    rewrite !count_app, progress_teardown. cbn.
    destruct (progressInterval s) as [[|]|]; lia.
  - now rewrite Nat.add_0_r.
  - cbn [effects set_groupAlive]. now rewrite Nat.add_0_r.
Qed.

(** X18.  Progress lines.  With [--quiet] no progress line is ever
    printed.  Without it, none is printed once the teardown has begun:
    after an event that starts the teardown, the number of progress lines
    no longer changes, whatever ticks follow. *)
Theorem progress_lines_stop :
  (rr_quiet rr = true ->
   forall childPid t0 events,
     progressLines (stateOf (run rr startTime (spawnState rr childPid t0) events))
     = 0%nat) /\
  (forall s e events,
     startsTeardown e = true ->
     progressLines (stateOf (run rr startTime s (e :: events))) = progressLines s).
Proof.
  assert (Hstop : forall events s,
            progressInterval s <> Some true ->
            progressLines (stateOf (run rr startTime s events)) = progressLines s).
  { intros events s Hp.
    apply (run_invariant_on (fun _ => True)
             (fun s' => progressInterval s' <> Some true /\
                        progressLines s' = progressLines s)).
    - intros s0 e _ (Hp0 & Hl0) _. split.
      + destruct e; cbn [next]; auto;
          try (destruct (timeoutHandle s0); auto; fail);
          try (destruct (progressInterval s0) as [[|]|]; auto; fail);
          cbn; destruct (progressInterval s0) as [[|]|] eqn:E; cbn; congruence.
      + rewrite progressLines_next, <- Hl0.
        destruct e; try lia. destruct (progressInterval s0) as [[|]|]; try lia.
        congruence.
    - intros s0 code rest (Hp0 & Hl0) _. split; [exact Hp0|].
      rewrite <- Hl0. unfold progressLines, exited.
      cbn [effects set_effects set_exitTimers]. rewrite count_app. cbn.
      now rewrite Nat.add_0_r.
    - apply Forall_all.
    - auto. }
  split.
  - intros Hq childPid t0 events. rewrite Hstop.
    + reflexivity.
    + cbn. rewrite Hq. discriminate.
  - intros s e events He. cbn [run].
    rewrite (proj1 (step_explicit s e)) by (intros ->; discriminate He).
    rewrite Hstop.
    + rewrite progressLines_next. destruct e; try discriminate He; lia.
    + destruct e; try discriminate He; cbn;
        destruct (progressInterval s); discriminate.
Qed.

End Explicit.

Lemma crash_only_on_error_event_witness :
  exists s',
    supervise sampleRequest 0 (spawnState sampleRequest (Some 4242%Z) 0)
      (map Listened [StdoutData "Compiling" 10]
       ++ ErrorEvent logStream "EACCES" :: [Listened SIGINT])%list
      = Crashed "EACCES" s' /\
    existsb isKill (effects s') = false /\
    exitTimers s' = [] /\
    exitCalls s' = 0%nat.
Proof.
  refine (proj2 (proj2 (crash_only_on_error_event sampleRequest 0))
            (Some 4242%Z) 0%Z [StdoutData "Compiling" 10] logStream "EACCES"
            [Listened SIGINT] eq_refl _).
  intros [E|[]]. discriminate E.
Defined.

Lemma exit_code_range_witness :
  65%Z = 124%Z \/ 65%Z = 130%Z \/ 65%Z = 143%Z \/
  exists code now logContent,
    In (Close code now logContent)
       [StdoutData "Compiling" 10; Close (Some 65%Z) 9000 None; ExitTimerFires] /\
    65%Z = exitStatus code.
Proof.
  assert (E : exitCode (run sampleRequest 0 started
                [StdoutData "Compiling" 10; Close (Some 65%Z) 9000 None; ExitTimerFires])
              = Some 65%Z) by (vm_compute; reflexivity).
  exact (exit_code_range sampleRequest 0 _ started 65%Z eq_refl E).
Defined.

Lemma kill_before_exit_witness :
  exists before delivered after code,
    effects (stateOf (run sampleRequest 0 started
                        [Close (Some 0%Z) 5000 None; ExitTimerFires])) =
      (effects started ++ before ++ KillGroup delivered :: after ++ [ProcessExit code])%list /\
    0%Z = exitStatus code.
Proof.
  assert (E : exitCode (run sampleRequest 0 started
                [Close (Some 0%Z) 5000 None; ExitTimerFires]) = Some 0%Z)
    by (vm_compute; reflexivity).
  exact (kill_before_exit sampleRequest 0 _ started 0%Z eq_refl eq_refl E).
Defined.


Lemma log_is_the_output_witness :
  logWrites (effects (stateOf (run sampleRequest 0 started
     [StdoutData "a" 1; SIGINT; StderrData "b" 2; ExitTimerFires; StdoutData "c" 3]))) =
  (logWrites (effects started)
   ++ chunks (beforeTeardown
        [StdoutData "a" 1; SIGINT; StderrData "b" 2; ExitTimerFires; StdoutData "c" 3]))%list.
Proof.
  exact (proj2 (log_is_the_output sampleRequest 0 _ started) eq_refl eq_refl).
Defined.

Lemma late_timeout_witness :
  timedOut (stateOf (run sampleRequest 0 (spawnState sampleRequest (Some 4242%Z) 0)
                       ([StdoutData "Compiling" 10]
                        ++ Close (Some 0%Z) 5000 None :: [TimeoutFires; ExitTimerFires])))
  = false.
Proof.
  refine (proj2 (late_timeout_is_harmless sampleRequest 0) (Some 4242%Z) 0%Z
            [StdoutData "Compiling" 10] (Close (Some 0%Z) 5000 None)
            [TimeoutFires; ExitTimerFires] _ eq_refl eq_refl).
  intros [E|[]]. discriminate E.
Defined.

Lemma progress_lines_witness :
  progressLines (stateOf (run sampleRequest 0 (spawnState sampleRequest (Some 4242%Z) 0)
                            [ProgressTick 1000; ProgressTick 2000])) = 0%nat.
Proof.
  exact (proj1 (progress_lines_stop sampleRequest 0) eq_refl (Some 4242%Z) 0%Z
           [ProgressTick 1000; ProgressTick 2000]).
Defined.

(* ------------------------------------------------------------------ *)
(** *** Teardown is not latched *)

Lemma closeReport_prints (rr : RunRequest) (startTime : Z) (flag : bool)
    (code : option Z) (now : Z) (logContent : option string) :
  forallb isPrint (closeReport rr startTime flag code now logContent) = true.
Proof.
  unfold closeReport, diagnostics.
  destruct (rr_quiet rr), flag; try reflexivity.
  all: destruct code as [[|c|c]|]; try reflexivity.
  all: destruct logContent as [content|]; try reflexivity.
  all: destruct (errorMatch content), (JS.includes "Unable to find a device" content);
    reflexivity.
Qed.

(** An event that starts the teardown prints its report and then runs the
    body of the teardown routine. *)
Lemma teardown_step (rr : RunRequest) (startTime : Z) (s : SupervisedRun) (e : event) :
  startsTeardown e = true ->
  exists report code,
    forallb isPrint report = true /\
    armedBy (timedOut s) e = [code] /\
    step rr startTime s e =
      Running (afterCleanup code (set_effects (effects s ++ report)%list s)).
Proof.
  intros He.
  rewrite (proj1 (step_explicit rr startTime s e)) by (intros ->; discriminate He).
  destruct e; try discriminate He; cbn [next armedBy].
  - exists (closeReport rr startTime (timedOut s) code now logContent),
      (closeCode (timedOut s) code).
    split; [apply closeReport_prints|]. split; reflexivity.
  - eexists _, _. split; [|split; reflexivity]. reflexivity.
  - eexists _, _. split; [|split; reflexivity]. reflexivity.
Qed.

(** The body of the teardown does the same again when it runs again. *)
Lemma teardownEffects_again (s : SupervisedRun) (t : list effect) (code code' : option Z) :
  teardownEffects (afterCleanup code (set_effects t s)) code' = teardownEffects s code'.
Proof.
  unfold teardownEffects, afterCleanup, hasPid. cbn.
  destruct (progressInterval s); reflexivity.
Qed.

(** C3, as stated, fails: nothing guards the teardown routine.  Invoked a
    second time it runs its whole body again: the timer is cleared again,
    the group is signalled again, the log stream is ended again and a
    second exit timer is armed. *)
Lemma teardown_runs_twice :
  effects completedThenInterrupted =
    [Print stdout Rule; Print stdout (SuccessReport "BUILD" 5); Print stdout Rule;
     Print stdout (FullLog "/tmp/xcode-build.log");
     ClearTimeout; KillGroup true; LogEnd; SetExitTimer (Some 0%Z);
     Print stdout (Cancelled "BUILD");
     ClearTimeout; KillGroup true; LogEnd; SetExitTimer (Some 130%Z)] /\
  exitTimers completedThenInterrupted = [Some 0%Z; Some 130%Z] /\
  teardowns completedThenInterrupted = 2%nat.
Proof. repeat split; vm_compute; reflexivity. Qed.

(** C3, amended.  Two events that start the teardown, one after the other:
    neither handler throws, whether or not the group of the child is still
    there.  Each prints its report and then runs the whole body of the
    teardown: the second run clears the timer (and the progress interval)
    again, signals the group again, ends the log stream again and arms a
    second exit timer, exactly as the first did.  Two exit timers are
    pending afterwards, the first holding the code of the first event, and
    [process.exit] has not been called yet.  Once an exit timer fires the
    wrapper exits with the code of the first event, and [process.exit] has
    then been called exactly once. *)
Theorem teardown_twice (rr : RunRequest) (startTime : Z) (s : SupervisedRun)
    (e1 e2 : event) (events : list event) :
  startsTeardown e1 = true -> startsTeardown e2 = true ->
  exitTimers s = [] ->
  exists s1 s2 c1 c2 report1 report2,
    step rr startTime s e1 = Running s1 /\
    step rr startTime s1 e2 = Running s2 /\
    armedBy (timedOut s) e1 = [c1] /\
    armedBy (timedOut s1) e2 = [c2] /\
    forallb isPrint report1 = true /\
    forallb isPrint report2 = true /\
    effects s1 = (effects s ++ report1 ++ teardownEffects s c1)%list /\
    effects s2 = (effects s1 ++ report2 ++ teardownEffects s c2)%list /\
    exitTimers s2 = [c1; c2] /\
    teardowns s2 = (teardowns s + 2)%nat /\
    exitCalls s2 = exitCalls s /\
    (In ExitTimerFires events ->
       exitCode (run rr startTime s2 events) = Some (exitStatus c1) /\
       exitCalls (stateOf (run rr startTime s2 events)) = S (exitCalls s)).
Proof.
  intros H1 H2 Hq.
  assert (N1 : e1 <> ExitTimerFires) by (intros ->; discriminate H1).
  assert (N2 : e2 <> ExitTimerFires) by (intros ->; discriminate H2).
  destruct (teardown_step rr startTime s e1 H1) as (report1 & c1 & P1 & A1 & E1).
  set (s1 := afterCleanup c1 (set_effects (effects s ++ report1)%list s)) in *.
  destruct (teardown_step rr startTime s1 e2 H2) as (report2 & c2 & P2 & A2 & E2).
  set (s2 := afterCleanup c2 (set_effects (effects s1 ++ report2)%list s1)) in *.
  destruct (step_running rr startTime s e1 N1) as (s1' & E1' & Q1 & _ & T1 & X1).
  rewrite E1 in E1'. injection E1' as <-.
  destruct (step_running rr startTime s1 e2 N2) as (s2' & E2' & Q2 & _ & T2 & X2).
  rewrite E2 in E2'. injection E2' as <-.
  rewrite A1 in Q1, T1. rewrite A2 in Q2, T2. rewrite Hq in Q1.
  cbn [app List.length] in Q1, Q2, T1, T2. rewrite Q1 in Q2. cbn [app] in Q2.
  exists s1, s2, c1, c2, report1, report2.
  split; [exact E1|]. split; [exact E2|].
  split; [exact A1|]. split; [exact A2|].
  split; [exact P1|]. split; [exact P2|].
  split; [subst s1; cbn [afterCleanup effects set_effects];
          rewrite <- app_assoc; reflexivity|].
  split.
  { subst s2. cbn [afterCleanup effects set_effects].
    rewrite <- app_assoc. do 2 f_equal.
    change (teardownEffects (set_effects (effects s1 ++ report2)%list s1) c2)
      with (teardownEffects s1 c2).
    subst s1. apply teardownEffects_again. }
  split; [exact Q2|]. split; [lia|]. split; [congruence|].
  intros Hin.
  pose proof (oldest_timer_decides rr startTime events s2 c1 [c2] Q2 Hin) as Hexit.
  split; [exact Hexit|].
  rewrite <- X1, <- X2.
  exact (run_exit_calls rr startTime events s2 _ Hexit).
Qed.

Lemma teardown_twice_witness :
  exists s1 s2 c1 c2 report1 report2,
    step sampleRequest 0 started (Close (Some 0%Z) 5000 None) = Running s1 /\
    step sampleRequest 0 s1 SIGINT = Running s2 /\
    armedBy (timedOut started) (Close (Some 0%Z) 5000 None) = [c1] /\
    armedBy (timedOut s1) SIGINT = [c2] /\
    forallb isPrint report1 = true /\
    forallb isPrint report2 = true /\
    effects s1 = (effects started ++ report1 ++ teardownEffects started c1)%list /\
    effects s2 = (effects s1 ++ report2 ++ teardownEffects started c2)%list /\
    exitTimers s2 = [c1; c2] /\
    teardowns s2 = (teardowns started + 2)%nat /\
    exitCalls s2 = exitCalls started /\
    (In ExitTimerFires [ExitTimerFires] ->
       exitCode (run sampleRequest 0 s2 [ExitTimerFires]) = Some (exitStatus c1) /\
       exitCalls (stateOf (run sampleRequest 0 s2 [ExitTimerFires])) = S (exitCalls started)).
Proof.
  exact (teardown_twice sampleRequest 0 started (Close (Some 0%Z) 5000 None) SIGINT
           [ExitTimerFires] eq_refl eq_refl eq_refl).
Defined.

(* ================================================================== *)
(** ** The exit code of the wrapper *)
(* ================================================================== *)

(** Every error in the arguments ends the script with code 1 before the
    target directory is read. *)
Lemma argument_error_exits (args : list string) (os : World) :
  wantsHelp args = false ->
  projectPath args = None \/ scheme args = None \/
  JS.arrayIncludes (command args) ALLOWED_COMMANDS = false \/
  JS.isFinite (timeout args) = false \/ JS.leZero (timeout args) = true \/
  (command args = "archive" /\ archivePathArg args = None) ->
  exists t, main args os = (t, Exit 1) /\ spawned t = false /\ readDirectory t = false.
Proof.
  intros Hh Hbad. unfold_script. rewrite Hh.
  destruct Hbad as [H|[H|[H|[H|[H|[H1 H2]]]]]];
    rewrite ?H, ?H1, ?H2, ?orb_true_r;
    cbn [String.eqb Ascii.eqb Bool.eqb andb negb orb];
    repeat (branch; cbn [app fst snd] in * );
    eexists; (split; [reflexivity|]); split; reflexivity.
Qed.

(** A run of the script that goes on to the supervision has found a
    descriptor and, for [build] and [test], the device. *)
Lemma main_done_checks (args : list string) (os : World) (t : list effect)
    (rr : RunRequest) :
  main args os = (t, Done rr) ->
  (forall dir entries,
     projectPath args = Some dir -> readdirSync os dir = Some entries ->
     JS.find (JS.endsWith ".xcworkspace") entries = None ->
     JS.find (JS.endsWith ".xcodeproj") entries = None -> False) /\
  (usesSimulatorDestination (command args) = true ->
   exists devices,
     simctl os = inr devices /\ JS.includes (deviceName args) devices = true).
Proof.
  follow_script; intros E; inversion E; subst; clear E;
    (split; [intros dir entries Hd He Hw Hp; congruence|]);
    intros Hu; try congruence;
    repeat match goal with
           | H : negb _ = false |- _ => apply negb_false_iff in H
           end;
    eexists; (split; [reflexivity | assumption]).
Qed.

(** The only exception that escapes the script is the one of
    [readdirSync]. *)
Lemma main_uncaught (args : list string) (os : World) (t : list effect) :
  main args os = (t, Uncaught) ->
  exists dir, projectPath args = Some dir /\ readdirSync os dir = None.
Proof.
  follow_script; intros E; inversion E; subst; clear E;
    eexists; (split; first [reflexivity | assumption]).
Qed.

(** The errors that the system, not the arguments, brings about: no
    descriptor in the target directory, device not found, enumeration tool
    not available.  Each ends the script with code 1 before a child is
    started, whatever else the arguments say. *)
Lemma system_error_exits (args : list string) (os : World) (dir : string)
    (entries : list string) :
  wantsHelp args = false ->
  projectPath args = Some dir -> readdirSync os dir = Some entries ->
  (JS.find (JS.endsWith ".xcworkspace") entries = None /\
   JS.find (JS.endsWith ".xcodeproj") entries = None) \/
  (usesSimulatorDestination (command args) = true /\
   exists devices,
     simctl os = inr devices /\ JS.includes (deviceName args) devices = false) \/
  (usesSimulatorDestination (command args) = true /\
   exists err, simctl os = inl err) ->
  exists t, main args os = (t, Exit 1) /\ spawned t = false.
Proof.
  intros Hh Hp Hdir Hbad.
  destruct (main args os) as [t r] eqn:Hm. destruct r as [rr|c|].
  - exfalso. destruct (main_done_checks args os t rr Hm) as (Hdesc & Hdev).
    destruct Hbad as [(Hw & Hx)|[(Hu & devices & Hs & Hi)|(Hu & err & Hs)]].
    + exact (Hdesc dir entries Hp Hdir Hw Hx).
    + destruct (Hdev Hu) as (devices' & Hs' & Hi'). congruence.
    + destruct (Hdev Hu) as (devices' & Hs' & _). congruence.
  - exists t.
    destruct (main_exit_code args os t c Hm) as [[Hh' _]|[_ ->]]; [congruence|].
    split; [reflexivity | exact (main_exit_no_spawn args os t 1%Z Hm)].
  - exfalso. destruct (main_uncaught args os t Hm) as (dir' & Hp' & Hd'). congruence.
Qed.

(** Only the timeout timer sets the flag. *)
Lemma run_without_timeout (rr : RunRequest) (startTime : Z) (events : list event)
    (s : SupervisedRun) :
  ~ In TimeoutFires events ->
  timedOut (stateOf (run rr startTime s events)) = timedOut s.
Proof.
  intros Hno.
  apply (run_invariant_on rr startTime (fun e => e <> TimeoutFires)
           (fun s' => timedOut s' = timedOut s)).
  - intros s0 e Hne Hf0 _.
    destruct e; cbn [next]; try congruence; auto.
    destruct (progressInterval s0) as [[|]|]; auto.
  - intros s0 code rest Hf0 _. exact Hf0.
  - apply Forall_forall. intros x Hx ->. exact (Hno Hx).
  - reflexivity.
Qed.

(** From [spawn] to the first event that starts the teardown: that event
    decides the exit code, and for the completion of the child the flag
    says whether the timer has fired. *)
Lemma first_trigger_from_spawn (rr : RunRequest) (startTime : Z)
    (childPid : option Z) (t0 : Z) (pre post : list event) (e : event) :
  forallb (fun e => negb (startsTeardown e)) pre = true ->
  In ExitTimerFires post ->
  exists flag,
    (In TimeoutFires pre -> flag = true) /\
    (~ In TimeoutFires pre -> flag = false) /\
    forall code, armedBy flag e = [code] ->
      exitCode (run rr startTime (spawnState rr childPid t0) (pre ++ e :: post)) =
        Some (exitStatus code).
Proof.
  intros Hquiet Hexit.
  destruct (run_before_teardown rr startTime pre (spawnState rr childPid t0)
              eq_refl Hquiet) as (s' & R & Hq & _ & Hf).
  exists (timedOut s'). split; [|split].
  - intros Hin. exact (Hf eq_refl Hin).
  - intros Hno. change s' with (stateOf (Running s')). rewrite <- R.
    exact (run_without_timeout rr startTime pre _ Hno).
  - intros code Ha. rewrite run_app, R.
    exact (first_teardown_decides rr startTime s' e code post Hq Ha Hexit).
Qed.



